(** * pi-ptc: programmatic tool calling, host side

    A shallow embedding of the TypeScript sources of the extension
    (utils.ts, tool-wrapper.ts, rpc-protocol.ts, code-executor.ts,
    sandbox-manager.ts) together with the properties its design document
    states about them.

    Conventions of the embedding.
    - A JavaScript string is the list of its UTF-16 code units
      ([jsstring], a list of [N]); [length] is therefore the JavaScript
      [.length].
    - Numbers that the code only counts with (lengths, millisecond clocks)
      are [Z].
    - The event loop is made explicit: each callback the code registers is a
      case of a step function over the fields the callbacks share. *)

From Stdlib Require Import ZArith List Bool Ascii String Lia.
From stdpp Require Import base option list gmap.

Local Open Scope Z_scope.
Set Warnings "-register-all".

(** ** JavaScript strings *)

Module JS.

Abbreviation jsstring := (list N).

(** A source-code literal, read as code units. *)
Definition lit (s : string) : jsstring :=
  map N_of_ascii (list_ascii_of_string s).

Arguments lit s : simpl never.

Definition nl : jsstring := [10%N].
Definition dquote : jsstring := [34%N].

Definition js_length (s : jsstring) : Z := Z.of_nat (length s).

(** JavaScript truthiness of a string: the empty string is falsy. *)
Definition nonempty (s : jsstring) : bool :=
  match s with [] => false | _ :: _ => true end.

Definition clamp (n : Z) (len : Z) : Z := Z.max 0 (Z.min n len).

(** [String.prototype.substring(a, b)]. *)
Definition substring (s : jsstring) (a b : Z) : jsstring :=
  let len := js_length s in
  let a' := clamp a len in
  let b' := clamp b len in
  let from := Z.min a' b' in
  let to := Z.max a' b' in
  take (Z.to_nat (to - from)) (drop (Z.to_nat from) s).

Fixpoint uint_chars (d : Decimal.uint) : jsstring :=
  match d with
  | Decimal.Nil => []
  | Decimal.D0 d => 48%N :: uint_chars d
  | Decimal.D1 d => 49%N :: uint_chars d
  | Decimal.D2 d => 50%N :: uint_chars d
  | Decimal.D3 d => 51%N :: uint_chars d
  | Decimal.D4 d => 52%N :: uint_chars d
  | Decimal.D5 d => 53%N :: uint_chars d
  | Decimal.D6 d => 54%N :: uint_chars d
  | Decimal.D7 d => 55%N :: uint_chars d
  | Decimal.D8 d => 56%N :: uint_chars d
  | Decimal.D9 d => 57%N :: uint_chars d
  end.

(** Template-literal rendering of an integer-valued number: the decimal
    digits, with a minus sign when negative.  (JavaScript switches to
    exponent notation from 1e21 on; lengths and millisecond clocks stay far
    below.) *)
Definition Number_toString (z : Z) : jsstring :=
  match z with
  | Z0 => [48%N]
  | Zpos p => uint_chars (Pos.to_uint p)
  | Zneg p => 45%N :: uint_chars (Pos.to_uint p)
  end.

Fixpoint prefix_of (p s : jsstring) : bool :=
  match p, s with
  | [], _ => true
  | _ :: _, [] => false
  | a :: p', b :: s' => N.eqb a b && prefix_of p' s'
  end.

(** [String.prototype.includes(p)]. *)
Fixpoint includes (s p : jsstring) : bool :=
  prefix_of p s ||
  match s with
  | [] => false
  | _ :: s' => includes s' p
  end.

(** [Array.prototype.join(sep)] on an array of strings. *)
Fixpoint join (sep : jsstring) (l : list jsstring) : jsstring :=
  match l with
  | [] => []
  | [x] => x
  | x :: r => x ++ sep ++ join sep r
  end.

(** [s.split("\n")], with the current piece accumulated in [cur]. *)
Fixpoint split_nl_from (cur : jsstring) (s : jsstring) : list jsstring :=
  match s with
  | [] => [cur]
  | c :: r =>
      if N.eqb c 10 then cur :: split_nl_from [] r
      else split_nl_from (cur ++ [c]) r
  end.

Definition split_nl (s : jsstring) : list jsstring := split_nl_from [] s.

(** White space and line terminators removed by [String.prototype.trim]. *)
Definition is_js_space (c : N) : bool :=
  existsb (N.eqb c)
    [9; 10; 11; 12; 13; 32; 160; 5760; 8232; 8233; 8239; 8287; 12288; 65279]%N
  || (N.leb 8192 c && N.leb c 8202).

Fixpoint trim_start (s : jsstring) : jsstring :=
  match s with
  | c :: r => if is_js_space c then trim_start r else s
  | [] => []
  end.

Definition trim (s : jsstring) : jsstring :=
  rev (trim_start (rev (trim_start s))).

End JS.

Import JS.

(** ** utils.ts *)

Module Utils.

Definition MAX_OUTPUT_SIZE : Z := 100000.

Definition truncationNotice (len : Z) : jsstring :=
  nl ++ nl ++ lit "[Output truncated - showing first "
     ++ Number_toString MAX_OUTPUT_SIZE
     ++ lit " characters of " ++ Number_toString len ++ lit "]".

Definition truncateOutput (output : jsstring) : jsstring :=
  if js_length output <=? MAX_OUTPUT_SIZE then output
  else
    let truncated := substring output 0 MAX_OUTPUT_SIZE in
    truncated ++ truncationNotice (js_length output).

(** [formatPythonError(message)]: every call site passes one argument, so
    [traceback] is [None] there. *)
Definition formatPythonError (message : jsstring) (traceback : option jsstring)
  : jsstring :=
  match traceback with
  | Some tb =>
      if nonempty tb then
        lit "Python execution error:" ++ nl ++ message ++ nl ++ nl
          ++ lit "Traceback:" ++ nl ++ tb
      else lit "Python execution error: " ++ message
  | None => lit "Python execution error: " ++ message
  end.

End Utils.

(** ** JSON values and [JSON.parse] *)

Module Json.

(** A parsed JSON text.  A number keeps its lexeme (no claim below depends
    on its floating-point value); an object keeps its members in source
    order, a repeated key being resolved on lookup, where the last one
    wins as in [JSON.parse]. *)
Inductive json : Type :=
| JNull
| JBool (b : bool)
| JNum (lexeme : jsstring)
| JStr (s : jsstring)
| JArr (items : list json)
| JObj (fields : list (jsstring * json)).

(** Own-property read [o[k]] on an object built by [JSON.parse];
    [None] is [undefined]. *)
Definition lookup_field (k : jsstring) (fields : list (jsstring * json))
  : option json :=
  fold_left
    (fun acc kv => if decide (fst kv = k) then Some (snd kv) else acc)
    fields None.

(** [v.k] for a parsed value [v] other than [null]: primitives and arrays
    have no such property (the keys read by the code are ["type"],
    ["content"], ["output"], ... never ["length"]). *)
Definition get_prop (k : jsstring) (v : json) : option json :=
  match v with
  | JObj fields => lookup_field k fields
  | _ => None
  end.

Definition is_ws (c : N) : bool :=
  N.eqb c 32 || N.eqb c 9 || N.eqb c 10 || N.eqb c 13.

Fixpoint skip_ws (s : jsstring) : jsstring :=
  match s with
  | c :: r => if is_ws c then skip_ws r else s
  | [] => []
  end.

Definition is_digit (c : N) : bool := N.leb 48 c && N.leb c 57.

Fixpoint span_digits (s : jsstring) : jsstring * jsstring :=
  match s with
  | c :: r =>
      if is_digit c then
        let '(ds, rest) := span_digits r in (c :: ds, rest)
      else ([], s)
  | [] => ([], [])
  end.

(** The grammar of a JSON number: an optional minus sign; then a single 0
    or a non-zero digit followed by digits; then optionally a dot and at
    least one digit; then optionally e or E, an optional sign and at least
    one digit. *)
Definition parse_int_part (s : jsstring) : option (jsstring * jsstring) :=
  match s with
  | c :: r =>
      if N.eqb c 48 then Some ([c], r)
      else if is_digit c then
        let '(ds, rest) := span_digits r in Some (c :: ds, rest)
      else None
  | [] => None
  end.

Definition parse_frac_part (s : jsstring) : option (jsstring * jsstring) :=
  match s with
  | c :: r =>
      if N.eqb c 46 then
        match span_digits r with
        | ([], _) => None
        | (ds, rest) => Some (c :: ds, rest)
        end
      else Some ([], s)
  | [] => Some ([], [])
  end.

Definition parse_exp_part (s : jsstring) : option (jsstring * jsstring) :=
  match s with
  | c :: r =>
      if N.eqb c 101 || N.eqb c 69 then
        let '(sign, r1) :=
          match r with
          | d :: r' => if N.eqb d 43 || N.eqb d 45 then ([d], r') else ([], r)
          | [] => ([], r)
          end in
        match span_digits r1 with
        | ([], _) => None
        | (ds, rest) => Some (c :: sign ++ ds, rest)
        end
      else Some ([], s)
  | [] => Some ([], [])
  end.

Definition parse_number (s : jsstring) : option (jsstring * jsstring) :=
  let '(sign, s1) :=
    match s with
    | c :: r => if N.eqb c 45 then ([c], r) else ([], s)
    | [] => ([], s)
    end in
  '(i, s2) ← parse_int_part s1;
  '(f, s3) ← parse_frac_part s2;
  '(e, s4) ← parse_exp_part s3;
  Some (sign ++ i ++ f ++ e, s4).

Definition hex_digit (c : N) : option N :=
  if is_digit c then Some (c - 48)%N
  else if N.leb 97 c && N.leb c 102 then Some (c - 87)%N
  else if N.leb 65 c && N.leb c 70 then Some (c - 55)%N
  else None.

(** The characters of a string literal after its opening quote, up to and
    including the closing quote. *)
Fixpoint parse_string_body (s : jsstring) : option (jsstring * jsstring) :=
  match s with
  | [] => None
  | c :: r =>
      if N.eqb c 34 then Some ([], r)
      else if N.eqb c 92 then
        match r with
        | [] => None
        | e :: r' =>
            let simple (u : N) :=
              '(cs, rest) ← parse_string_body r'; Some (u :: cs, rest) in
            if N.eqb e 34 then simple 34%N
            else if N.eqb e 92 then simple 92%N
            else if N.eqb e 47 then simple 47%N
            else if N.eqb e 98 then simple 8%N
            else if N.eqb e 102 then simple 12%N
            else if N.eqb e 110 then simple 10%N
            else if N.eqb e 114 then simple 13%N
            else if N.eqb e 116 then simple 9%N
            else if N.eqb e 117 then
              match r' with
              | h1 :: h2 :: h3 :: h4 :: r'' =>
                  a ← hex_digit h1; b ← hex_digit h2;
                  c' ← hex_digit h3; d ← hex_digit h4;
                  '(cs, rest) ← parse_string_body r'';
                  Some ((((a * 16 + b) * 16 + c') * 16 + d)%N :: cs, rest)
              | _ => None
              end
            else None
        end
      else if N.ltb c 32 then None
      else '(cs, rest) ← parse_string_body r; Some (c :: cs, rest)
  end.

Definition expect (word : jsstring) (s : jsstring) (v : json)
  : option (json * jsstring) :=
  if prefix_of word s then Some (v, drop (length word) s) else None.

(** Recursive descent over values, array elements and object members; the
    fuel bounds the depth of the descent and [JSON_parse] supplies more
    than any text can use. *)
Fixpoint parse_value (fuel : nat) (s : jsstring) {struct fuel}
  : option (json * jsstring) :=
  match fuel with
  | O => None
  | S fuel' =>
      match skip_ws s with
      | [] => None
      | c :: r =>
          if N.eqb c 110 then expect (lit "ull") r JNull
          else if N.eqb c 116 then expect (lit "rue") r (JBool true)
          else if N.eqb c 102 then expect (lit "alse") r (JBool false)
          else if N.eqb c 34 then
            '(cs, rest) ← parse_string_body r; Some (JStr cs, rest)
          else if N.eqb c 91 then
            match skip_ws r with
            | d :: r' =>
                if N.eqb d 93 then Some (JArr [], r')
                else '(vs, rest) ← parse_elements fuel' r; Some (JArr vs, rest)
            | [] => None
            end
          else if N.eqb c 123 then
            match skip_ws r with
            | d :: r' =>
                if N.eqb d 125 then Some (JObj [], r')
                else '(ms, rest) ← parse_members fuel' r; Some (JObj ms, rest)
            | [] => None
            end
          else
            '(lexeme, rest) ← parse_number (c :: r); Some (JNum lexeme, rest)
      end
  end
with parse_elements (fuel : nat) (s : jsstring) {struct fuel}
  : option (list json * jsstring) :=
  match fuel with
  | O => None
  | S fuel' =>
      '(v, r) ← parse_value fuel' s;
      match skip_ws r with
      | c :: r' =>
          if N.eqb c 44 then
            '(vs, rest) ← parse_elements fuel' r'; Some (v :: vs, rest)
          else if N.eqb c 93 then Some ([v], r')
          else None
      | [] => None
      end
  end
with parse_members (fuel : nat) (s : jsstring) {struct fuel}
  : option (list (jsstring * json) * jsstring) :=
  match fuel with
  | O => None
  | S fuel' =>
      match skip_ws s with
      | q :: r0 =>
          if N.eqb q 34 then
            '(k, r1) ← parse_string_body r0;
            match skip_ws r1 with
            | colon :: r2 =>
                if N.eqb colon 58 then
                  '(v, r3) ← parse_value fuel' r2;
                  match skip_ws r3 with
                  | c :: r' =>
                      if N.eqb c 44 then
                        '(ms, rest) ← parse_members fuel' r';
                        Some ((k, v) :: ms, rest)
                      else if N.eqb c 125 then Some ([(k, v)], r')
                      else None
                  | [] => None
                  end
                else None
            | [] => None
            end
          else None
      | [] => None
      end
  end.

(** [JSON.parse(text)]; [None] stands for the [SyntaxError] it throws. *)
Definition JSON_parse (text : jsstring) : option json :=
  match parse_value (2 * length text + 2) text with
  | Some (v, rest) =>
      match skip_ws rest with
      | [] => Some v
      | _ :: _ => None
      end
  | None => None
  end.

(** Is the number written by this lexeme zero?  (Its mantissa, the part
    before any exponent, then has no digit other than 0.) *)
Fixpoint mantissa_zero (lexeme : jsstring) : bool :=
  match lexeme with
  | [] => true
  | c :: r =>
      if N.eqb c 101 || N.eqb c 69 then true
      else if is_digit c && negb (N.eqb c 48) then false
      else mantissa_zero r
  end.

(** JavaScript truthiness of a parsed value. *)
Definition truthy (v : json) : bool :=
  match v with
  | JNull => false
  | JBool b => b
  | JNum lexeme => negb (mantissa_zero lexeme)
  | JStr s => nonempty s
  | JArr _ | JObj _ => true
  end.

Definition truthy_opt (v : option json) : bool :=
  match v with Some j => truthy j | None => false end.

(** String coercion ([String(v)], template literals, [+] with a string).
    A number is rendered by its lexeme, which is what JavaScript prints for
    the integers a guest writes with [json.dumps] (below 2^53 in size);
    other number lexemes may print differently and nothing below relies on
    them. *)
Fixpoint ToString (v : json) : jsstring :=
  match v with
  | JNull => lit "null"
  | JBool true => lit "true"
  | JBool false => lit "false"
  | JNum lexeme => if decide (lexeme = lit "-0") then lit "0" else lexeme
  | JStr s => s
  | JArr items =>
      join (lit ",")
        (map (fun x => match x with JNull => [] | _ => ToString x end) items)
  | JObj _ => lit "[object Object]"
  end.

Definition ToString_opt (v : option json) : jsstring :=
  match v with Some j => ToString j | None => lit "undefined" end.

End Json.

Import Json.

(** ** tool-wrapper.ts *)

Module ToolWrapper.

(** The properties of a TypeBox schema object that the generator reads:
    [type], [items], [anyOf] and [description]; [None] is an absent
    property.  A [type] that is not one of the strings of the switch
    behaves like any other unrecognised string. *)
Inductive TSchema : Type :=
| Schema (type : option jsstring) (items : option TSchema)
         (anyOf : option (list TSchema)) (description : option jsstring).

Definition schema_type (s : TSchema) : option jsstring :=
  match s with Schema t _ _ _ => t end.
Definition schema_items (s : TSchema) : option TSchema :=
  match s with Schema _ i _ _ => i end.
Definition schema_anyOf (s : TSchema) : option (list TSchema) :=
  match s with Schema _ _ a _ => a end.
Definition schema_description (s : TSchema) : option jsstring :=
  match s with Schema _ _ _ d => d end.

(** [parameters]: an object schema with its [properties] in the order
    [Object.entries] enumerates them, and its [required] array. *)
Record Parameters : Type := {
  properties : option (list (jsstring * TSchema));
  required : option (list jsstring)
}.

Record ToolInfo : Type := {
  name : jsstring;
  tool_description : jsstring;
  parameters : option Parameters
}.

Definition type_is (k : jsstring) (s : TSchema) : bool :=
  bool_decide (schema_type s = Some k).

Fixpoint schemaToPythonType (schema : TSchema) : jsstring :=
  match schema with
  | Schema kind items _ _ =>
      if bool_decide (kind = Some (lit "string")) then lit "str"
      else if bool_decide (kind = Some (lit "number")) then lit "float"
      else if bool_decide (kind = Some (lit "integer")) then lit "int"
      else if bool_decide (kind = Some (lit "boolean")) then lit "bool"
      else if bool_decide (kind = Some (lit "array")) then
        let itemType :=
          match items with
          | Some i => schemaToPythonType i
          | None => lit "Any"
          end in
        lit "List[" ++ itemType ++ lit "]"
      else if bool_decide (kind = Some (lit "object")) then lit "Dict[str, Any]"
      else if bool_decide (kind = Some (lit "null")) then lit "None"
      else lit "Any"
  end.

Definition isOptional (schema : TSchema) : bool :=
  match schema_anyOf schema with
  | Some anyOf => existsb (type_is (lit "null")) anyOf
  | None => false
  end.

Definition extractNonNullSchema (schema : TSchema) : TSchema :=
  match schema_anyOf schema with
  | Some anyOf =>
      match List.find (fun s => negb (type_is (lit "null") s)) anyOf with
      | Some nonNull => nonNull
      | None => schema
      end
  | None => schema
  end.

(** The kinds the switch of [schemaToPythonType] names. *)
Definition known_kinds : list (option jsstring) :=
  [Some (lit "string"); Some (lit "number"); Some (lit "integer");
   Some (lit "boolean"); Some (lit "array"); Some (lit "object");
   Some (lit "null")].

(** The design document lets array item types recurse one level.  Read as
    a bound, the result may depend on the schema and on its items, and on
    nothing below: [one_level] is the schema with everything below its
    items removed. *)
Definition without_items (s : TSchema) : TSchema :=
  match s with Schema t _ a d => Schema t None a d end.

Definition one_level (s : TSchema) : TSchema :=
  match s with
  | Schema t items a d => Schema t (without_items <$> items) a d
  end.

Definition eqNone : jsstring := lit "= None".
Definition indent4 : jsstring := lit "    ".
Definition sep_params : jsstring := lit "," ++ nl ++ indent4.

Section Wrapper.
Variable tool : ToolInfo.

Definition params : list (jsstring * TSchema) :=
  match parameters tool with
  | Some p => default [] (properties p)
  | None => []
  end.

Definition required_set : list jsstring :=
  match parameters tool with
  | Some p => default [] (required p)
  | None => []
  end.

(** [!required.has(paramName) || isOptional(schema)] *)
Definition isOpt (paramName : jsstring) (schema : TSchema) : bool :=
  negb (bool_decide (paramName ∈ required_set)) || isOptional schema.

Definition pythonType (schema : TSchema) : jsstring :=
  schemaToPythonType
    (if isOptional schema then extractNonNullSchema schema else schema).

(** One entry of [paramList]. *)
Definition param_entry (p : jsstring * TSchema) : jsstring :=
  let '(paramName, schema) := p in
  if isOpt paramName schema then
    paramName ++ lit ": Optional[" ++ pythonType schema ++ lit "] = None"
  else paramName ++ lit ": " ++ pythonType schema.

Definition param_doc (p : jsstring * TSchema) : jsstring :=
  let '(paramName, schema) := p in
  let desc :=
    match schema_description schema with
    | Some d => d
    | None => []
    end in
  lit "        " ++ paramName ++ lit ": " ++ desc.

Definition paramList : list jsstring := map param_entry params.
Definition paramDocs : list jsstring := map param_doc params.

Definition requiredParams : list jsstring :=
  List.filter (fun p => negb (includes p eqNone)) paramList.
Definition optionalParams : list jsstring :=
  List.filter (fun p => includes p eqNone) paramList.

Definition signature : jsstring :=
  let head := lit "async def " ++ name tool ++ lit "(" in
  let args :=
    match requiredParams, optionalParams with
    | _ :: _, _ :: _ =>
        nl ++ indent4 ++ join sep_params requiredParams
           ++ lit "," ++ nl ++ indent4 ++ lit "*," ++ nl ++ indent4
           ++ join sep_params optionalParams
    | _ :: _, [] => nl ++ indent4 ++ join sep_params requiredParams
    | [], _ :: _ =>
        nl ++ indent4 ++ lit "*," ++ nl ++ indent4
           ++ join sep_params optionalParams
    | [], [] => []
    end in
  head ++ args ++ nl ++ lit ") -> str:".

Definition triple_quote : jsstring := dquote ++ dquote ++ dquote.

Definition docstring : jsstring :=
  let desc :=
    if nonempty (tool_description tool) then tool_description tool
    else lit "Execute " ++ name tool ++ lit " tool" in
  let args :=
    match paramDocs with
    | _ :: _ => lit "    Args:" ++ nl ++ join nl paramDocs ++ nl
    | [] => []
    end in
  indent4 ++ triple_quote ++ nl
    ++ indent4 ++ join (nl ++ indent4) (split_nl desc) ++ nl
    ++ nl
    ++ args ++ nl
    ++ lit "    Returns:" ++ nl
    ++ lit "        The tool result as a string" ++ nl
    ++ indent4 ++ triple_quote.

Definition paramsDict : jsstring :=
  match params with
  | _ :: _ =>
      lit "{" ++ nl
        ++ join (lit "," ++ nl)
             (map (fun p => lit "        " ++ dquote ++ fst p ++ dquote
                              ++ lit ": " ++ fst p) params)
        ++ lit "," ++ nl ++ lit "    }"
  | [] => lit "{}"
  end.

Definition body : jsstring :=
  lit "    result = await _rpc_call(" ++ dquote ++ name tool ++ dquote
    ++ lit ", " ++ paramsDict ++ lit ")" ++ nl
    ++ lit "    # Extract text from content array" ++ nl
    ++ lit "    if isinstance(result, list):" ++ nl
    ++ lit "        return " ++ dquote ++ dquote ++ lit ".join(c.get("
    ++ dquote ++ lit "text" ++ dquote ++ lit ", " ++ dquote ++ dquote
    ++ lit ") for c in result if isinstance(c, dict) and c.get("
    ++ dquote ++ lit "type" ++ dquote ++ lit ") == "
    ++ dquote ++ lit "text" ++ dquote ++ lit ")" ++ nl
    ++ lit "    return str(result)".

Definition generateToolWrapper : jsstring :=
  signature ++ nl ++ docstring ++ nl ++ body.
End Wrapper.




Definition generateToolWrappers (tools : list ToolInfo) : jsstring :=
  let imports := lit "from typing import Optional, List, Dict, Any, Union" in
  let wrappers := join (nl ++ nl) (map generateToolWrapper tools) in
  imports ++ nl ++ nl ++ wrappers.

End ToolWrapper.

(** ** The Node.js objects the code drives: child process, promise *)

Module Node.

Inductive Signal : Type := SIGTERM | SIGKILL.

(** A child process is running or has exited; [Exited None] is a process
    ended by a signal, whose [exitCode] stays [null]. *)
Inductive ProcStatus : Type :=
| Running
| Exited (code : option Z).

Record ChildProcess : Type := {
  status : ProcStatus;
  delivered : list Signal;   (* signals that reached the process *)
  stdin_writable : bool      (* [proc.stdin && !proc.stdin.destroyed] *)
}.

Definition spawned : ChildProcess :=
  {| status := Running; delivered := []; stdin_writable := true |}.

(** [proc.exitCode] *)
Definition exitCode (p : ChildProcess) : option Z :=
  match status p with
  | Running => None
  | Exited code => code
  end.

(** [proc.kill(sig)]: delivers the signal while the process handle is
    alive, does nothing afterwards. *)
Definition kill (sig : Signal) (p : ChildProcess) : ChildProcess :=
  match status p with
  | Running =>
      {| status := Running; delivered := delivered p ++ [sig];
         stdin_writable := stdin_writable p |}
  | Exited _ => p
  end.

Definition exits (code : option Z) (p : ChildProcess) : ChildProcess :=
  {| status := Exited code; delivered := delivered p;
     stdin_writable := stdin_writable p |}.

Definition destroy_stdin (p : ChildProcess) : ChildProcess :=
  {| status := status p; delivered := delivered p; stdin_writable := false |}.

(** A promise settles once; later [resolve]/[reject] calls are ignored. *)
Inductive Promise (A : Type) : Type :=
| Pending
| Resolved (value : A)
| Rejected (message : jsstring).
Arguments Pending {A}.
Arguments Resolved {A} value.
Arguments Rejected {A} message.

Definition resolve {A} (v : A) (p : Promise A) : Promise A :=
  match p with Pending => Resolved v | _ => p end.

Definition reject {A} (message : jsstring) (p : Promise A) : Promise A :=
  match p with Pending => Rejected message | _ => p end.

(** [setTimeout(cb, delay)]: the pending callbacks, ordered by due time
    (first registered first among equals). *)
Fixpoint schedule {A} (due : Z) (cb : A) (ts : list (Z * A)) : list (Z * A) :=
  match ts with
  | [] => [(due, cb)]
  | (d, c) :: r =>
      if due <? d then (due, cb) :: ts else (d, c) :: schedule due cb r
  end.

(** What a rejected [await] hands to a [catch]: an [Error] with its
    message, or some other thrown value. *)
Inductive Thrown : Type :=
| ErrorObject (message : jsstring)
| OtherValue (v : option json).

(** [err instanceof Error ? err.message : String(err)] *)
Definition error_text (e : Thrown) : jsstring :=
  match e with
  | ErrorObject m => m
  | OtherValue v => ToString_opt v
  end.

End Node.

Import Node.

(** ** rpc-protocol.ts *)

Module RpcProtocol.

Import ToolWrapper.

(** The [tool_result] message handed to [send]; the line written is its
    [JSON.stringify] followed by a newline.  [tr_id] is [msg.id] as
    received ([None] when the request had none). *)
Record ToolResult : Type := {
  tr_id : option json;
  tr_content : json;
  tr_error : option jsstring
}.

(** A call of the [onUpdate] observer. *)
Inductive Update : Type :=
| Progress (text : jsstring) (currentLine : option json) (totalLines : Z)
| Message (text : option json).

(** An awaited [executeTool(msg.tool, msg.params)]. *)
Record InFlight : Type := {
  call_id : option json;
  call_tool : jsstring;
  call_params : option json
}.

(** How an awaited [executeTool] settles. *)
Inductive Dispatch : Type :=
| Fulfilled (result : option json)
| Failed (err : Thrown).

(** Constructor arguments. *)
Record Config : Type := {
  tools : gmap jsstring ToolInfo;
  userCode : jsstring;
  has_signal : bool;
  has_onUpdate : bool
}.

Record State : Type := {
  proc : ChildProcess;
  completion : Promise (option json);
  stderr : jsstring;
  stdout : jsstring;
  currentLine : option json;
  written : list ToolResult;       (* lines written to the guest's stdin *)
  in_flight : list InFlight;
  updates : list Update;
  abort_listener : bool;           (* registered and not yet run *)
  now : Z;
  timers : list (Z * unit)         (* pending force-kill checks *)
}.

Inductive Event : Type :=
| Line (line : jsstring)               (* lineReader "line" *)
| StderrData (data : jsstring)         (* proc.stderr "data" *)
| Exit (code : option Z)               (* proc "exit" *)
| ProcError (message : jsstring)       (* proc "error" *)
| Abort                                (* signal "abort" *)
| ToolSettles (k : nat) (d : Dispatch) (* the k-th awaited dispatch settles *)
| StdinDestroyed
| Elapse (dt : Z).

Definition set_proc (p : ChildProcess) (st : State) : State :=
  {| proc := p; completion := completion st; stderr := stderr st;
     stdout := stdout st; currentLine := currentLine st;
     written := written st; in_flight := in_flight st;
     updates := updates st; abort_listener := abort_listener st;
     now := now st; timers := timers st |}.

Definition set_completion (c : Promise (option json)) (st : State) : State :=
  {| proc := proc st; completion := c; stderr := stderr st;
     stdout := stdout st; currentLine := currentLine st;
     written := written st; in_flight := in_flight st;
     updates := updates st; abort_listener := abort_listener st;
     now := now st; timers := timers st |}.

Definition set_stderr (s : jsstring) (st : State) : State :=
  {| proc := proc st; completion := completion st; stderr := s;
     stdout := stdout st; currentLine := currentLine st;
     written := written st; in_flight := in_flight st;
     updates := updates st; abort_listener := abort_listener st;
     now := now st; timers := timers st |}.

Definition set_stdout (s : jsstring) (st : State) : State :=
  {| proc := proc st; completion := completion st; stderr := stderr st;
     stdout := s; currentLine := currentLine st;
     written := written st; in_flight := in_flight st;
     updates := updates st; abort_listener := abort_listener st;
     now := now st; timers := timers st |}.

Definition set_currentLine (l : option json) (st : State) : State :=
  {| proc := proc st; completion := completion st; stderr := stderr st;
     stdout := stdout st; currentLine := l;
     written := written st; in_flight := in_flight st;
     updates := updates st; abort_listener := abort_listener st;
     now := now st; timers := timers st |}.

Definition set_written (w : list ToolResult) (st : State) : State :=
  {| proc := proc st; completion := completion st; stderr := stderr st;
     stdout := stdout st; currentLine := currentLine st;
     written := w; in_flight := in_flight st;
     updates := updates st; abort_listener := abort_listener st;
     now := now st; timers := timers st |}.

Definition set_in_flight (l : list InFlight) (st : State) : State :=
  {| proc := proc st; completion := completion st; stderr := stderr st;
     stdout := stdout st; currentLine := currentLine st;
     written := written st; in_flight := l;
     updates := updates st; abort_listener := abort_listener st;
     now := now st; timers := timers st |}.

Definition set_updates (u : list Update) (st : State) : State :=
  {| proc := proc st; completion := completion st; stderr := stderr st;
     stdout := stdout st; currentLine := currentLine st;
     written := written st; in_flight := in_flight st;
     updates := u; abort_listener := abort_listener st;
     now := now st; timers := timers st |}.

Definition set_abort_listener (b : bool) (st : State) : State :=
  {| proc := proc st; completion := completion st; stderr := stderr st;
     stdout := stdout st; currentLine := currentLine st;
     written := written st; in_flight := in_flight st;
     updates := updates st; abort_listener := b;
     now := now st; timers := timers st |}.

Definition set_clock (t : Z) (ts : list (Z * unit)) (st : State) : State :=
  {| proc := proc st; completion := completion st; stderr := stderr st;
     stdout := stdout st; currentLine := currentLine st;
     written := written st; in_flight := in_flight st;
     updates := updates st; abort_listener := abort_listener st;
     now := t; timers := ts |}.

(** The state the constructor leaves, [t0] being the time of the call. *)
Definition init (cfg : Config) (p : ChildProcess) (t0 : Z) : State :=
  {| proc := p; completion := Pending; stderr := []; stdout := [];
     currentLine := Some (JNum (lit "0"));
     written := []; in_flight := []; updates := [];
     abort_listener := has_signal cfg;
     now := t0; timers := [] |}.

Section Handlers.
Variable cfg : Config.

(** [userCode.split("\n")] *)
Definition userCodeLines : list jsstring := split_nl (userCode cfg).

(** [send(msg)]: written only while the guest's stdin exists and is not
    destroyed. *)
Definition send (msg : ToolResult) (st : State) : State :=
  if stdin_writable (proc st) then set_written (written st ++ [msg]) st
  else st.

(** [if (this.onUpdate) this.onUpdate(...)]; the observer is taken not to
    throw. *)
Definition notify (u : Update) (st : State) : State :=
  if has_onUpdate cfg then set_updates (updates st ++ [u]) st else st.

(** The reply built in the [catch] of [handleToolCall]. *)
Definition error_result (id : option json) (message : jsstring)
  : ToolResult :=
  {| tr_id := id; tr_content := JArr []; tr_error := Some message |}.

(** [handleToolCall] up to its [await]: an unknown tool is answered at
    once, a known one leaves the dispatch awaited. *)
Definition handleToolCall (msg : json) (st : State) : State :=
  let tool := get_prop (lit "tool") msg in
  let id := get_prop (lit "id") msg in
  let toolInfo :=
    match tool with
    | Some (JStr n) => tools cfg !! n
    | _ => None
    end in
  match tool, toolInfo with
  | Some (JStr n), Some _ =>
      set_in_flight
        (in_flight st ++
           [{| call_id := id; call_tool := n;
               call_params := get_prop (lit "params") msg |}]) st
  | _, _ =>
      send (error_result id (lit "Unknown tool: " ++ ToString_opt tool)) st
  end.

(** The [TypeError] of reading [result.content] on [undefined] or
    [null]. *)
Definition content_of_nothing (result : option json) : jsstring :=
  lit "Cannot read properties of " ++ ToString_opt result
    ++ lit " (reading 'content')".

(** [handleToolCall] after its [await]. *)
Definition toolSettled (call : InFlight) (d : Dispatch) (st : State)
  : State :=
  match d with
  | Fulfilled result =>
      match result with
      | None | Some JNull =>
          send (error_result (call_id call) (content_of_nothing result)) st
      | Some r =>
          let content := get_prop (lit "content") r in
          send {| tr_id := call_id call;
                  tr_content :=
                    match content with
                    | Some c => if truthy c then c else JArr []
                    | None => JArr []
                    end;
                  tr_error := None |} st
      end
  | Failed err => send (error_result (call_id call) (error_text err)) st
  end.


(** The [catch] of [handleMessage]: the line is console text. *)
Definition capture (line : jsstring) (st : State) : State :=
  if nonempty (stdout st) then set_stdout (stdout st ++ nl ++ line) st
  else set_stdout line st.

Definition handleMessage (line : jsstring) (st : State) : State :=
  match JSON_parse line with
  | None => capture line st
  | Some JNull => capture line st      (* [msg.type] on [null] throws *)
  | Some msg =>
      match get_prop (lit "type") msg with
      | Some (JStr t) =>
          if decide (t = lit "tool_call") then handleToolCall msg st
          else if decide (t = lit "execution_progress") then
            let l := get_prop (lit "line") msg in
            let total := Z.of_nat (length userCodeLines) in
            notify
              (Progress
                 (lit "Executing line " ++ ToString_opt l ++ lit "/"
                    ++ Number_toString total) l total)
              (set_currentLine l st)
          else if decide (t = lit "complete") then
            let output := get_prop (lit "output") msg in
            let finalOutput :=
              if nonempty (stdout st)
              then Some (JStr (stdout st ++ nl ++ ToString_opt output))
              else output in
            set_completion (resolve finalOutput (completion st)) st
          else if decide (t = lit "error") then
            let traceback := get_prop (lit "traceback") msg in
            let errorMsg :=
              ToString_opt (get_prop (lit "message") msg)
                ++ (if truthy_opt traceback
                    then nl ++ ToString_opt traceback else []) in
            set_completion (reject errorMsg (completion st)) st
          else if decide (t = lit "update") then
            notify (Message (get_prop (lit "message") msg)) st
          else st
      | _ => st
      end
  end.

Definition onExit (code : option Z) (st : State) : State :=
  let st' := set_proc (exits code (proc st)) st in
  match code with
  | Some c =>
      if c =? 0 then st'
      else
        let errorMsg :=
          if nonempty (stderr st') then stderr st'
          else lit "Process exited with code " ++ Number_toString c in
        set_completion (reject errorMsg (completion st')) st'
  | None => st'
  end.

Definition onError (message : jsstring) (st : State) : State :=
  set_completion
    (reject (lit "Process error: " ++ message) (completion st)) st.

(** The ["abort"] listener, registered [{ once: true }]. *)
Definition onAbort (st : State) : State :=
  if abort_listener st then
    let st1 := set_abort_listener false st in
    let st2 := set_proc (kill SIGTERM (proc st1)) st1 in
    let st3 :=
      set_clock (now st2) (schedule (now st2 + 5000) tt (timers st2)) st2 in
    set_completion (reject (lit "Execution aborted") (completion st3)) st3
  else st.

(** The callback of the 5000 ms timer. *)
Definition forceKillCheck (st : State) : State :=
  match exitCode (proc st) with
  | None => set_proc (kill SIGKILL (proc st)) st
  | Some _ => st
  end.

(** Time moves on to [t]; every callback due by then runs at its due
    time, in order. *)
Fixpoint fire_due (t : Z) (ts : list (Z * unit)) (st : State) : State :=
  match ts with
  | (due, _) :: rest =>
      if due <=? t
      then fire_due t rest
             (forceKillCheck (set_clock (Z.max (now st) due) rest st))
      else set_clock (Z.max (now st) t) ts st
  | [] => set_clock (Z.max (now st) t) [] st
  end.

Definition elapse (dt : Z) (st : State) : State :=
  fire_due (now st + dt) (timers st) st.

Definition step (st : State) (ev : Event) : State :=
  match ev with
  | Line line => handleMessage line st
  | StderrData data => set_stderr (stderr st ++ data) st
  | Exit code => onExit code st
  | ProcError message => onError message st
  | Abort => onAbort st
  | ToolSettles k d =>
      match in_flight st !! k with
      | Some call =>
          toolSettled call d (set_in_flight (delete k (in_flight st)) st)
      | None => st
      end
  | StdinDestroyed => set_proc (destroy_stdin (proc st)) st
  | Elapse dt => elapse dt st
  end.

Definition run (st : State) (evs : list Event) : State :=
  fold_left step evs st.

(** [waitForCompletion()] *)
Definition waitForCompletion (st : State) : Promise (option json) :=
  completion st.
End Handlers.

End RpcProtocol.

(** ** code-executor.ts *)

Module CodeExecutor.

Import ToolWrapper.

(** How the promise returned by [execute] stands. *)
Inductive Outcome : Type :=
| Awaiting
| Returns (output : jsstring)
| Throws (message : jsstring)
| NonStringOutput (v : option json).

(** [execute] up to its [await]: the catalogue is pinned in a map by name
    (a later tool of the same name replacing an earlier one), [python3] is
    spawned directly and wrapped in an [RpcProtocol].  No timer is
    registered here. *)
Definition toolsMap (allTools : list ToolInfo) : gmap jsstring ToolInfo :=
  fold_left (fun m t => <[name t := t]> m) allTools ∅.

Definition config (allTools : list ToolInfo) (userCode : jsstring)
    (has_signal has_onUpdate : bool) : RpcProtocol.Config :=
  {| RpcProtocol.tools := toolsMap allTools;
     RpcProtocol.userCode := userCode;
     RpcProtocol.has_signal := has_signal;
     RpcProtocol.has_onUpdate := has_onUpdate |}.

(** The program handed to [python3 -u -c]; [rpcCode] and [runtimeCode]
    are the contents of the two runtime files read from disk. *)
Definition combinedCode (rpcCode runtimeCode : jsstring)
    (allTools : list ToolInfo) (userCode : jsstring) : jsstring :=
  nl ++ rpcCode ++ nl
    ++ nl ++ generateToolWrappers allTools ++ nl
    ++ nl ++ runtimeCode ++ nl
    ++ nl ++ lit "# User code" ++ nl
    ++ lit "async def user_main():" ++ nl
    ++ join nl (map (fun line => lit "    " ++ line) (split_nl userCode)) ++ nl
    ++ nl ++ lit "# Execute" ++ nl
    ++ lit "import asyncio" ++ nl
    ++ lit "asyncio.run(_runtime_main(user_main))" ++ nl.

Definition spawn_argv (code : jsstring) : list jsstring :=
  [lit "-u"; lit "-c"; code].

Definition start (cfg : RpcProtocol.Config) (t0 : Z) : RpcProtocol.State :=
  RpcProtocol.init cfg spawned t0.

(** [execute] after its [await]: a resolved output goes through
    [truncateOutput]; a rejection is re-thrown, wrapped by
    [formatPythonError] unless it already carries that prefix.  A [complete]
    message whose output is not a string (against the message type) is kept
    apart as [NonStringOutput]. *)
Definition finish (st : RpcProtocol.State) : Outcome :=
  match RpcProtocol.waitForCompletion st with
  | Pending => Awaiting
  | Resolved (Some (JStr output)) => Returns (Utils.truncateOutput output)
  | Resolved v => NonStringOutput v
  | Rejected message =>
      if includes message (lit "Python execution error") then Throws message
      else Throws (Utils.formatPythonError message None)
  end.

(** One execution observed through the events of its guest process. *)
Definition execute (cfg : RpcProtocol.Config) (t0 : Z)
    (evs : list RpcProtocol.Event) : Outcome :=
  finish (RpcProtocol.run cfg (start cfg t0) evs).

End CodeExecutor.

(** ** sandbox-manager.ts *)

Module SandboxManager.

Definition EXECUTION_TIMEOUT : Z := 270000.

(** *** The promise built by [execute] (both backends)

    The fields are the local variables the callbacks close over. *)

Inductive Callback : Type :=
| TimeoutCb          (* the [EXECUTION_TIMEOUT] timer, [timeoutId] *)
| ForceKillCb.       (* the nested 5000 ms timer *)

Inductive SignalArg : Type :=
| NoSignal
| SignalGiven (aborted : bool).

Record ExecState : Type := {
  proc : ChildProcess;
  stdout : jsstring;
  stderr : jsstring;
  killed : bool;
  result : Promise jsstring;
  abort_listener : bool;     (* [abortHandler] registered and not yet run *)
  wired : bool;              (* data/exit/error handlers attached *)
  now : Z;
  timers : list (Z * Callback)
}.

Inductive Event : Type :=
| StdoutData (data : jsstring)
| StderrData (data : jsstring)
| Exit (code : option Z)
| ProcError (message : jsstring)
| Abort
| Elapse (dt : Z).

Definition set_proc (p : ChildProcess) (st : ExecState) : ExecState :=
  {| proc := p; stdout := stdout st; stderr := stderr st;
     killed := killed st; result := result st;
     abort_listener := abort_listener st; wired := wired st;
     now := now st; timers := timers st |}.

Definition set_stdout (s : jsstring) (st : ExecState) : ExecState :=
  {| proc := proc st; stdout := s; stderr := stderr st;
     killed := killed st; result := result st;
     abort_listener := abort_listener st; wired := wired st;
     now := now st; timers := timers st |}.

Definition set_stderr (s : jsstring) (st : ExecState) : ExecState :=
  {| proc := proc st; stdout := stdout st; stderr := s;
     killed := killed st; result := result st;
     abort_listener := abort_listener st; wired := wired st;
     now := now st; timers := timers st |}.

Definition set_killed (b : bool) (st : ExecState) : ExecState :=
  {| proc := proc st; stdout := stdout st; stderr := stderr st;
     killed := b; result := result st;
     abort_listener := abort_listener st; wired := wired st;
     now := now st; timers := timers st |}.

Definition set_result (r : Promise jsstring) (st : ExecState) : ExecState :=
  {| proc := proc st; stdout := stdout st; stderr := stderr st;
     killed := killed st; result := r;
     abort_listener := abort_listener st; wired := wired st;
     now := now st; timers := timers st |}.

Definition set_abort_listener (b : bool) (st : ExecState) : ExecState :=
  {| proc := proc st; stdout := stdout st; stderr := stderr st;
     killed := killed st; result := result st;
     abort_listener := b; wired := wired st;
     now := now st; timers := timers st |}.

Definition set_wired (b : bool) (st : ExecState) : ExecState :=
  {| proc := proc st; stdout := stdout st; stderr := stderr st;
     killed := killed st; result := result st;
     abort_listener := abort_listener st; wired := b;
     now := now st; timers := timers st |}.

Definition set_clock (t : Z) (ts : list (Z * Callback)) (st : ExecState)
  : ExecState :=
  {| proc := proc st; stdout := stdout st; stderr := stderr st;
     killed := killed st; result := result st;
     abort_listener := abort_listener st; wired := wired st;
     now := t; timers := ts |}.

Definition setTimeout (cb : Callback) (delay : Z) (st : ExecState)
  : ExecState :=
  set_clock (now st) (schedule (now st + delay) cb (timers st)) st.

(** [clearTimeout(timeoutId)] *)
Definition clearTimeout (st : ExecState) : ExecState :=
  set_clock (now st)
    (List.filter
       (fun t => match snd t with TimeoutCb => false | ForceKillCb => true end)
       (timers st)) st.

Definition timed_out_message : jsstring :=
  lit "Execution timed out after "
    ++ Number_toString (EXECUTION_TIMEOUT / 1000) ++ lit " seconds".

(** [stderr || stdout || `Process exited with code ${code}`] *)
Definition exit_message (st : ExecState) (code : option Z) : jsstring :=
  if nonempty (stderr st) then stderr st
  else if nonempty (stdout st) then stdout st
  else lit "Process exited with code "
         ++ match code with
            | Some c => Number_toString c
            | None => lit "null"
            end.

(** Time moves on to [t]; each callback due by then runs at its due time.
    A callback registers at most one further timer, so the fuel given by
    [elapse_with] is never used up. *)
Fixpoint fire_due (fire : Callback -> ExecState -> ExecState)
    (fuel : nat) (t : Z) (st : ExecState) : ExecState :=
  match fuel with
  | O => st
  | S fuel' =>
      match timers st with
      | (due, cb) :: rest =>
          if due <=? t
          then fire_due fire fuel' t
                 (fire cb (set_clock (Z.max (now st) due) rest st))
          else set_clock (Z.max (now st) t) (timers st) st
      | [] => set_clock (Z.max (now st) t) [] st
      end
  end.

(** How many callbacks a pending timer can still cause to run: the
    timeout callback may register one force-kill check. *)
Definition cost (cb : Callback) : nat :=
  match cb with TimeoutCb => 2 | ForceKillCb => 1 end.

Definition weight (ts : list (Z * Callback)) : nat :=
  list_sum (map (fun t => cost (snd t)) ts).

(** A callback uses up its own weight: the timers it leaves weigh less
    than before it ran. *)
Definition uses_its_weight (fire : Callback -> ExecState -> ExecState) : Prop :=
  forall cb st,
    (weight (timers (fire cb st)) + 1 <= weight (timers st) + cost cb)%nat.

Definition elapse_with (fire : Callback -> ExecState -> ExecState)
    (dt : Z) (st : ExecState) : ExecState :=
  fire_due fire (S (2 * length (timers st))) (now st + dt) st.

(** *** SubprocessSandbox *)

Module SubprocessSandbox.

Definition forceKillCheck (st : ExecState) : ExecState :=
  match exitCode (proc st) with
  | None => set_proc (kill SIGKILL (proc st)) st
  | Some _ => st
  end.

Definition onTimeout (st : ExecState) : ExecState :=
  if killed st then st
  else
    let st1 := set_killed true st in
    let st2 := set_proc (kill SIGTERM (proc st1)) st1 in
    let st3 := setTimeout ForceKillCb 5000 st2 in
    set_result (reject timed_out_message (result st3)) st3.

Definition abortHandler (st : ExecState) : ExecState :=
  if killed st then st
  else
    let st1 := set_killed true st in
    let st2 := clearTimeout st1 in
    let st3 := set_proc (kill SIGTERM (proc st2)) st2 in
    let st4 := setTimeout ForceKillCb 5000 st3 in
    set_result (reject (lit "Execution aborted") (result st4)) st4.

Definition fire (cb : Callback) (st : ExecState) : ExecState :=
  match cb with
  | TimeoutCb => onTimeout st
  | ForceKillCb => forceKillCheck st
  end.

(** The executor of the promise: spawn, arm the timeout, look at the
    signal, attach the handlers. *)
Definition start (signal : SignalArg) (t0 : Z) : ExecState :=
  let st0 :=
    {| proc := spawned; stdout := []; stderr := []; killed := false;
       result := Pending; abort_listener := false; wired := false;
       now := t0; timers := [] |} in
  let st1 := setTimeout TimeoutCb EXECUTION_TIMEOUT st0 in
  match signal with
  | SignalGiven true =>
      let st2 := set_proc (kill SIGTERM (proc st1)) st1 in
      set_result (reject (lit "Execution aborted") (result st2)) st2
  | SignalGiven false => set_wired true (set_abort_listener true st1)
  | NoSignal => set_wired true st1
  end.

Definition onExit (code : option Z) (st : ExecState) : ExecState :=
  let st1 := set_proc (exits code (proc st)) st in
  if wired st1 then
    let st2 := set_abort_listener false (clearTimeout st1) in
    if killed st2 then st2
    else if bool_decide (code = Some 0)
    then set_result (resolve (stdout st2) (result st2)) st2
    else set_result (reject (exit_message st2 code) (result st2)) st2
  else st1.

Definition onError (message : jsstring) (st : ExecState) : ExecState :=
  if wired st then
    let st2 := set_abort_listener false (clearTimeout st) in
    if killed st2 then st2
    else
      set_result
        (reject (lit "Failed to spawn Python process: " ++ message)
           (result st2)) st2
  else st.

Definition step (st : ExecState) (ev : Event) : ExecState :=
  match ev with
  | StdoutData d =>
      if wired st then set_stdout (stdout st ++ d) st else st
  | StderrData d =>
      if wired st then set_stderr (stderr st ++ d) st else st
  | Exit code => onExit code st
  | ProcError m => onError m st
  | Abort =>
      if abort_listener st
      then abortHandler (set_abort_listener false st)
      else st
  | Elapse dt => elapse_with fire dt st
  end.

Definition run (st : ExecState) (evs : list Event) : ExecState :=
  fold_left step evs st.

End SubprocessSandbox.

(** *** DockerSandbox *)

Module DockerSandbox.

(** **** [execute]: the promise around [docker exec] *)

Definition onTimeout (st : ExecState) : ExecState :=
  if killed st then st
  else
    let st1 := set_killed true st in
    let st2 := set_proc (kill SIGTERM (proc st1)) st1 in
    set_result (reject timed_out_message (result st2)) st2.

Definition abortHandler (st : ExecState) : ExecState :=
  if killed st then st
  else
    let st1 := set_killed true st in
    let st2 := clearTimeout st1 in
    let st3 := set_proc (kill SIGTERM (proc st2)) st2 in
    set_result (reject (lit "Execution aborted") (result st3)) st3.

(** No 5000 ms timer is ever registered by this class. *)
Definition fire (cb : Callback) (st : ExecState) : ExecState :=
  match cb with
  | TimeoutCb => onTimeout st
  | ForceKillCb => st
  end.

Definition start (signal : SignalArg) (t0 : Z) : ExecState :=
  let st0 :=
    {| proc := spawned; stdout := []; stderr := []; killed := false;
       result := Pending; abort_listener := false; wired := false;
       now := t0; timers := [] |} in
  let st1 := setTimeout TimeoutCb EXECUTION_TIMEOUT st0 in
  match signal with
  | SignalGiven true =>
      let st2 := set_proc (kill SIGTERM (proc st1)) st1 in
      set_result (reject (lit "Execution aborted") (result st2)) st2
  | SignalGiven false => set_wired true (set_abort_listener true st1)
  | NoSignal => set_wired true st1
  end.

Definition onExit (code : option Z) (st : ExecState) : ExecState :=
  let st1 := set_proc (exits code (proc st)) st in
  if wired st1 then
    let st2 := set_abort_listener false (clearTimeout st1) in
    if killed st2 then st2
    else if bool_decide (code = Some 0)
    then set_result (resolve (stdout st2) (result st2)) st2
    else set_result (reject (exit_message st2 code) (result st2)) st2
  else st1.

Definition onError (message : jsstring) (st : ExecState) : ExecState :=
  if wired st then
    let st2 := set_abort_listener false (clearTimeout st) in
    if killed st2 then st2
    else
      set_result
        (reject (lit "Failed to execute in Docker: " ++ message)
           (result st2)) st2
  else st.

Definition step (st : ExecState) (ev : Event) : ExecState :=
  match ev with
  | StdoutData d =>
      if wired st then set_stdout (stdout st ++ d) st else st
  | StderrData d =>
      if wired st then set_stderr (stderr st ++ d) st else st
  | Exit code => onExit code st
  | ProcError m => onError m st
  | Abort =>
      if abort_listener st
      then abortHandler (set_abort_listener false st)
      else st
  | Elapse dt => elapse_with fire dt st
  end.

Definition run (st : ExecState) (evs : list Event) : ExecState :=
  fold_left step evs st.

(** **** The container handle and its life cycle *)

Record Fields : Type := {
  containerId : option jsstring;     (* [string | null] *)
  lastUsed : Z;
  sessionId : jsstring;
  cleanupInterval : option Z         (* period of the live interval timer *)
}.

Definition REAPER_PERIOD : Z := 60000.

(** The constructor: no container yet, the reaper started. *)
Definition new (sessionId : jsstring) : Fields :=
  {| containerId := None; lastUsed := 0; sessionId := sessionId;
     cleanupInterval := Some REAPER_PERIOD |}.

Definition set_containerId (c : option jsstring) (f : Fields) : Fields :=
  {| containerId := c; lastUsed := lastUsed f; sessionId := sessionId f;
     cleanupInterval := cleanupInterval f |}.

Definition set_lastUsed (t : Z) (f : Fields) : Fields :=
  {| containerId := containerId f; lastUsed := t; sessionId := sessionId f;
     cleanupInterval := cleanupInterval f |}.

Definition set_cleanupInterval (i : option Z) (f : Fields) : Fields :=
  {| containerId := containerId f; lastUsed := lastUsed f;
     sessionId := sessionId f; cleanupInterval := i |}.

(** Truthiness of [this.containerId]: neither [null] nor the empty
    string. *)
Definition has_handle (f : Fields) : bool :=
  match containerId f with
  | Some id => nonempty id
  | None => false
  end.

(** What the methods do to the outside. *)
Inductive Effect : Type :=
| Exec (command : jsstring)
| ConsoleError (text : jsstring) (err : Thrown).

Inductive Result (A : Type) : Type :=
| Ok (a : A)
| Throw (e : Thrown).
Arguments Ok {A} a.
Arguments Throw {A} e.

(** [child_process.exec], promisified: the captured stdout, or the
    message of the error it rejects with. *)
Inductive ExecReply : Type :=
| ExecOk (out : jsstring)
| ExecFail (message : jsstring).

Definition docker_stop (id : jsstring) : jsstring := lit "docker stop " ++ id.

Definition docker_run (containerName cwd : jsstring) : jsstring :=
  lit "docker run -d --rm --network none --name " ++ containerName
    ++ lit " "
    ++ lit "-v " ++ dquote ++ cwd ++ lit ":/workspace:ro" ++ dquote
    ++ lit " "
    ++ lit "--memory 512m --cpus 1.0 "
    ++ lit "python:3.12-slim tail -f /dev/null".

Arguments docker_stop id : simpl never.
Arguments docker_run containerName cwd : simpl never.

(** [spawn("docker", [...])] of [execute]. *)
Definition docker_exec_argv (id code : jsstring) : list jsstring :=
  [lit "exec"; lit "-i"; id; lit "python3"; lit "-u"; lit "-c"; code].

Section World.
(** The world outside: the shell that runs docker, and the clock.
    Running a command may change the world (time passes). *)
Variable World : Type.
Variable execAsync : jsstring -> World -> ExecReply * World.
Variable Date_now : World -> Z.

Record Machine : Type := {
  fields : Fields;
  world : World;
  trace : list Effect
}.

Definition M (A : Type) : Type := Machine -> Result A * Machine.

Definition ret {A} (a : A) : M A := fun m => (Ok a, m).
Definition throw {A} (e : Thrown) : M A := fun m => (Throw e, m).
Definition bind {A B} (c : M A) (k : A -> M B) : M B :=
  fun m =>
    match c m with
    | (Ok a, m') => k a m'
    | (Throw e, m') => (Throw e, m')
    end.
Definition try_catch {A} (c : M A) (handler : Thrown -> M A) : M A :=
  fun m =>
    match c m with
    | (Ok a, m') => (Ok a, m')
    | (Throw e, m') => handler e m'
    end.

Local Notation "'let*' x := c 'in' k" := (bind c (fun x => k))
  (at level 10, x name, c at level 100, k at level 200).
Local Notation "c ;; k" := (bind c (fun _ => k))
  (at level 100, k at level 200, right associativity).

Definition this : M Fields := fun m => (Ok (fields m), m).
Definition update (g : Fields -> Fields) : M unit :=
  fun m =>
    (Ok tt, {| fields := g (fields m); world := world m;
               trace := trace m |}).
Definition date_now : M Z := fun m => (Ok (Date_now (world m)), m).
Definition log (e : Effect) : M unit :=
  fun m =>
    (Ok tt, {| fields := fields m; world := world m;
               trace := trace m ++ [e] |}).
Definition exec (command : jsstring) : M jsstring :=
  fun m =>
    let '(reply, w') := execAsync command (world m) in
    let m' := {| fields := fields m; world := w';
                 trace := trace m ++ [Exec command] |} in
    match reply with
    | ExecOk out => (Ok out, m')
    | ExecFail message => (Throw (ErrorObject message), m')
    end.

Definition stopContainer : M unit :=
  let* f := this in
  match containerId f with
  | Some id =>
      if nonempty id then
        try_catch
          (let* _ := exec (docker_stop id) in ret tt)
          (fun error =>
             log (ConsoleError
                    (lit "Failed to stop container " ++ id ++ lit ":")
                    error)) ;;
        update (set_containerId None)
      else ret tt
  | None => ret tt
  end.

(** The machine [stopContainer] leaves behind when a handle [id] is held:
    [docker stop id] was issued, a failure was logged, the handle is
    [null]. *)
Definition stopped (id : jsstring) (m : Machine) : Machine :=
  let '(reply, w') := execAsync (docker_stop id) (world m) in
  {| fields := set_containerId None (fields m);
     world := w';
     trace :=
       (trace m ++ [Exec (docker_stop id)])
         ++ match reply with
            | ExecOk _ => []
            | ExecFail message =>
                [ConsoleError
                   (lit "Failed to stop container " ++ id ++ lit ":")
                   (ErrorObject message)]
            end |}.

(** The name given to a new container. *)
Definition containerName (f : Fields) (t : Z) : jsstring :=
  lit "pi-ptc-" ++ sessionId f ++ lit "-" ++ Number_toString t.

(** The machine a successful [docker run] leaves behind. *)
Definition created (out : jsstring) (command : jsstring) (w' : World)
    (m : Machine) : Machine :=
  {| fields :=
       set_lastUsed (Date_now w') (set_containerId (Some (trim out)) (fields m));
     world := w';
     trace := trace m ++ [Exec command] |}.

(** The handle is [null] or a container id, never the empty string, in
    every state these methods can reach from the constructor, as long as a
    successful [docker run -d] prints the id of the container it
    started. *)
Definition handle_ok (m : Machine) : Prop :=
  containerId (fields m) <> Some [].

Definition cleanupExpired : M unit :=
  let* f := this in
  let* t := date_now in
  if has_handle f && (EXECUTION_TIMEOUT <? t - lastUsed f)
  then stopContainer
  else ret tt.

(** One tick of the [setInterval] started by the constructor. *)
Definition reaper_tick : M unit :=
  let* f := this in
  match cleanupInterval f with
  | Some _ => cleanupExpired
  | None => ret tt
  end.

Definition getOrCreateContainer (cwd : jsstring) : M jsstring :=
  let* f := this in
  let* t := date_now in
  if has_handle f && (t - lastUsed f <? EXECUTION_TIMEOUT) then
    let* t' := date_now in
    update (set_lastUsed t') ;;
    ret (default [] (containerId f))
  else
    (if has_handle f then stopContainer else ret tt) ;;
    let* t1 := date_now in
    let containerName :=
      lit "pi-ptc-" ++ sessionId f ++ lit "-" ++ Number_toString t1 in
    try_catch
      (let* out := exec (docker_run containerName cwd) in
       update (set_containerId (Some (trim out))) ;;
       let* t2 := date_now in
       update (set_lastUsed t2) ;;
       ret (trim out))
      (fun error =>
         throw (ErrorObject
                  (lit "Failed to create Docker container: "
                     ++ error_text error))).

Definition cleanup : M unit :=
  let* f := this in
  (match cleanupInterval f with
   | Some _ => update (set_cleanupInterval None)
   | None => ret tt
   end) ;;
  stopContainer.

(** [SubprocessSandbox.cleanup]: an empty body, nothing to release. *)
Definition SubprocessSandbox_cleanup : M unit := ret tt.

Definition commands (tr : list Effect) : list jsstring :=
  omap (fun e => match e with Exec c => Some c | _ => None end) tr.
End World.

Arguments fields {World} m.
Arguments world {World} m.
Arguments trace {World} m.
Arguments Build_Machine {World} fields world trace.
Arguments ret {World A} a m.
Arguments throw {World A} e m.
Arguments bind {World A B} c k m.
Arguments try_catch {World A} c handler m.
Arguments this {World} m.
Arguments handle_ok {World} m.
Arguments update {World} g m.
Arguments log {World} e m.

End DockerSandbox.

End SandboxManager.


(** * Concrete inputs used by the examples below *)

Module Fixtures.


(** Schemas as TypeBox builds them. *)
Definition TString : ToolWrapper.TSchema :=
  ToolWrapper.Schema (Some (lit "string")) None None None.
Definition TArray (items : ToolWrapper.TSchema) : ToolWrapper.TSchema :=
  ToolWrapper.Schema (Some (lit "array")) (Some items) None None.




(** JSON text: a quoted string, and an object of already rendered
    members. *)
Definition quoted (s : string) : jsstring := dquote ++ lit s ++ dquote.

Definition member (key : string) (value : jsstring) : jsstring :=
  quoted key ++ lit ":" ++ value.

Definition object (members : list jsstring) : jsstring :=
  lit "{" ++ join (lit ",") members ++ lit "}".

(** The line the guest runtime writes when the script returns ["done"]. *)
Definition complete_done : jsstring :=
  object [member "type" (quoted "complete"); member "output" (quoted "done")].



Definition read_tool : ToolWrapper.ToolInfo :=
  {| ToolWrapper.name := lit "read";
     ToolWrapper.tool_description := lit "Read a file";
     ToolWrapper.parameters := None |}.

(** An execution with the one tool [read], a cancellation signal and a
    progress observer. *)
Definition cfg : RpcProtocol.Config :=
  CodeExecutor.config [read_tool] (lit "return 1") true true.

(** What a tool hands back: one text block. *)
Definition text_block (s : string) : json :=
  JObj [(lit "type", JStr (lit "text")); (lit "text", JStr (lit s))].

Definition tool_result_ok : json :=
  JObj [(lit "content", JArr [text_block "ok"])].

(** A scripted world: a clock, and the replies the docker command line
    will give, in order; every command takes a second. *)
Record Scripted : Type := {
  clock : Z;
  replies : list SandboxManager.DockerSandbox.ExecReply
}.

Definition scripted_exec (command : jsstring) (w : Scripted)
  : SandboxManager.DockerSandbox.ExecReply * Scripted :=
  match replies w with
  | r :: rest => (r, {| clock := clock w + 1000; replies := rest |})
  | [] =>
      (SandboxManager.DockerSandbox.ExecFail (lit "Cannot connect to the Docker daemon"),
       {| clock := clock w + 1000; replies := [] |})
  end.

(** A session that holds container [abc123], last used at time 1000, in a
    world where the next docker command fails. *)
Definition holding_container : SandboxManager.DockerSandbox.Machine Scripted :=
  {| SandboxManager.DockerSandbox.fields :=
       {| SandboxManager.DockerSandbox.containerId := Some (lit "abc123");
          SandboxManager.DockerSandbox.lastUsed := 1000;
          SandboxManager.DockerSandbox.sessionId := lit "s1";
          SandboxManager.DockerSandbox.cleanupInterval :=
            Some SandboxManager.DockerSandbox.REAPER_PERIOD |};
     SandboxManager.DockerSandbox.world := {| clock := 2000; replies := [] |};
     SandboxManager.DockerSandbox.trace := [] |}.


End Fixtures.


(** * Properties *)

(** ** Strings *)

Lemma js_length_app (s t : jsstring) :
  js_length (s ++ t) = js_length s + js_length t.
Proof. unfold js_length. rewrite length_app. lia. Qed.

Lemma js_length_nonneg (s : jsstring) : 0 <= js_length s.
Proof. unfold js_length. lia. Qed.



(** ** [JSON_parse]: the fuel is enough

    The recursive descent consumes input at every step, so the fuel
    [JSON_parse] supplies is never used up: any larger amount gives the
    same result. *)

Section ParserFuel.

Lemma skip_ws_length (s : jsstring) : (length (skip_ws s) <= length s)%nat.
Proof.
  induction s as [| c s IH]; [reflexivity |].
  cbn [skip_ws]. destruct (is_ws c); cbn [length]; lia.
Qed.

Lemma skip_ws_cons_length (s r : jsstring) (c : N) :
  skip_ws s = c :: r -> (length r < length s)%nat.
Proof.
  intros H. pose proof (skip_ws_length s) as Hl. rewrite H in Hl.
  cbn [length] in Hl. lia.
Qed.

Lemma span_digits_length (s : jsstring) :
  (length (snd (span_digits s)) <= length s)%nat.
Proof.
  induction s as [| c s IH]; [reflexivity |].
  cbn [span_digits]. destruct (is_digit c); [| reflexivity].
  destruct (span_digits s) as [ds rest]. cbn [snd length] in *. lia.
Qed.

Lemma parse_int_part_length (s i r : jsstring) :
  parse_int_part s = Some (i, r) -> (length r < length s)%nat.
Proof.
  destruct s as [| c s]; [discriminate |]. cbn [parse_int_part].
  destruct (N.eqb c 48); [intros [= <- <-]; cbn; lia |].
  destruct (is_digit c); [| discriminate].
  pose proof (span_digits_length s) as Hl.
  destruct (span_digits s) as [ds rest]. intros [= <- <-].
  cbn [snd length] in *. lia.
Qed.

Lemma parse_frac_part_length (s f r : jsstring) :
  parse_frac_part s = Some (f, r) -> (length r <= length s)%nat.
Proof.
  destruct s as [| c s]; [intros [= <- <-]; reflexivity |].
  cbn [parse_frac_part].
  destruct (N.eqb c 46); [| intros [= <- <-]; reflexivity].
  pose proof (span_digits_length s) as Hl.
  destruct (span_digits s) as [[| d ds] rest]; [discriminate |].
  intros [= <- <-]. cbn [snd length] in *. lia.
Qed.

Lemma parse_exp_part_length (s e r : jsstring) :
  parse_exp_part s = Some (e, r) -> (length r <= length s)%nat.
Proof.
  destruct s as [| c s]; [intros [= <- <-]; reflexivity |].
  cbn [parse_exp_part].
  destruct (N.eqb c 101 || N.eqb c 69); [| intros [= <- <-]; reflexivity].
  assert (Hsign : forall sign r1,
            match s with
            | d :: r' =>
                if N.eqb d 43 || N.eqb d 45 then ([d], r') else ([], s)
            | [] => ([], s)
            end = (sign, r1) -> (length r1 <= length s)%nat).
  { intros sign r1. destruct s as [| d r']; [intros [= <- <-]; reflexivity |].
    destruct (N.eqb d 43 || N.eqb d 45); intros [= <- <-]; cbn [length]; lia. }
  destruct (match s with
            | d :: r' =>
                if N.eqb d 43 || N.eqb d 45 then ([d], r') else ([], s)
            | [] => ([], s)
            end) as [sign r1] eqn:E.
  specialize (Hsign sign r1 eq_refl).
  pose proof (span_digits_length r1) as Hl.
  destruct (span_digits r1) as [[| d ds] rest]; [discriminate |].
  intros [= <- <-]. cbn [snd length] in *. lia.
Qed.

Lemma parse_number_length (s lexeme r : jsstring) :
  parse_number s = Some (lexeme, r) -> (length r < length s)%nat.
Proof.
  unfold parse_number.
  assert (Hsign : forall sign s1,
            match s with
            | c :: r0 => if N.eqb c 45 then ([c], r0) else ([], s)
            | [] => ([], s)
            end = (sign, s1) -> (length s1 <= length s)%nat).
  { intros sign s1. destruct s as [| c r0]; [intros [= <- <-]; reflexivity |].
    destruct (N.eqb c 45); intros [= <- <-]; cbn [length]; lia. }
  destruct (match s with
            | c :: r0 => if N.eqb c 45 then ([c], r0) else ([], s)
            | [] => ([], s)
            end) as [sign s1] eqn:E.
  specialize (Hsign sign s1 eq_refl).
  destruct (parse_int_part s1) as [[i s2] |] eqn:Ei; [| discriminate].
  apply parse_int_part_length in Ei. cbn.
  destruct (parse_frac_part s2) as [[f s3] |] eqn:Ef; [| discriminate].
  apply parse_frac_part_length in Ef. cbn.
  destruct (parse_exp_part s3) as [[e s4] |] eqn:Ee; [| discriminate].
  apply parse_exp_part_length in Ee. cbn.
  intros [= _ <-]. lia.
Qed.

Lemma parse_string_body_length (s : jsstring) :
  forall cs r, parse_string_body s = Some (cs, r) ->
               (length r < length s)%nat.
Proof.
  induction s as [s IH] using (induction_ltof1 _ (@length N)).
  unfold ltof in IH.
  intros cs r. destruct s as [| c s]; [discriminate |].
  cbn [parse_string_body].
  destruct (N.eqb c 34); [intros [= <- <-]; cbn [length]; lia |].
  destruct (N.eqb c 92).
  - destruct s as [| e r']; [discriminate |].
    assert (Hsimple : forall u,
              (parse_string_body r' ≫= λ '(cs0, rest), Some (u :: cs0, rest))
                = Some (cs, r) -> (length r < length (c :: e :: r'))%nat).
    { intros u. destruct (parse_string_body r') as [[cs0 rest] |] eqn:E;
        [| discriminate].
      apply IH in E; [| cbn [length]; lia].
      cbn. intros [= _ <-]. cbn [length]. lia. }
    repeat (match goal with
            | |- context [if N.eqb e ?k then _ else _] =>
                destruct (N.eqb e k); [apply Hsimple |]
            end).
    destruct (N.eqb e 117); [| discriminate].
    destruct r' as [| h1 [| h2 [| h3 [| h4 r'']]]]; try discriminate.
    destruct (hex_digit h1); [| discriminate]. cbn.
    destruct (hex_digit h2); [| discriminate]. cbn.
    destruct (hex_digit h3); [| discriminate]. cbn.
    destruct (hex_digit h4); [| discriminate]. cbn.
    destruct (parse_string_body r'') as [[cs0 rest] |] eqn:E;
      [| discriminate].
    apply IH in E; [| cbn [length]; lia].
    cbn. intros [= _ <-]. cbn [length]. lia.
  - destruct (N.ltb c 32); [discriminate |].
    destruct (parse_string_body s) as [[cs0 rest] |] eqn:E; [| discriminate].
    apply IH in E; [| cbn [length]; lia].
    cbn. intros [= _ <-]. cbn [length]. lia.
Qed.

Lemma expect_length (word s r : jsstring) (v v' : json) :
  expect word s v = Some (v', r) -> (length r <= length s)%nat.
Proof.
  unfold expect. destruct (prefix_of word s); [| discriminate].
  intros [= _ <-]. rewrite length_drop. lia.
Qed.

Lemma parse_value_shrinks (n : nat) :
  (forall s v r, parse_value n s = Some (v, r) -> (length r < length s)%nat)
  /\ (forall s vs r,
        parse_elements n s = Some (vs, r) -> (length r < length s)%nat)
  /\ (forall s ms r,
        parse_members n s = Some (ms, r) -> (length r < length s)%nat).
Proof.
  induction n as [| n (IHv & IHe & IHm)];
    [repeat split; intros; discriminate |].
  split; [| split].
  - intros s v r. cbn [parse_value].
    destruct (skip_ws s) as [| c r0] eqn:Es; [discriminate |].
    apply skip_ws_cons_length in Es.
    destruct (N.eqb c 110);
      [intros H; apply expect_length in H; lia |].
    destruct (N.eqb c 116);
      [intros H; apply expect_length in H; lia |].
    destruct (N.eqb c 102);
      [intros H; apply expect_length in H; lia |].
    destruct (N.eqb c 34).
    { destruct (parse_string_body r0) as [[cs rest] |] eqn:E;
        [| discriminate].
      apply parse_string_body_length in E. cbn. intros [= _ <-]. lia. }
    destruct (N.eqb c 91).
    { destruct (skip_ws r0) as [| d r'] eqn:Er; [discriminate |].
      apply skip_ws_cons_length in Er.
      destruct (N.eqb d 93); [intros [= _ <-]; lia |].
      destruct (parse_elements n r0) as [[vs rest] |] eqn:E;
        [| discriminate].
      apply IHe in E. cbn. intros [= _ <-]. lia. }
    destruct (N.eqb c 123).
    { destruct (skip_ws r0) as [| d r'] eqn:Er; [discriminate |].
      apply skip_ws_cons_length in Er.
      destruct (N.eqb d 125); [intros [= _ <-]; lia |].
      destruct (parse_members n r0) as [[ms rest] |] eqn:E;
        [| discriminate].
      apply IHm in E. cbn. intros [= _ <-]. lia. }
    destruct (parse_number (c :: r0)) as [[lexeme rest] |] eqn:E;
      [| discriminate].
    apply parse_number_length in E. cbn [length] in E.
    cbn. intros [= _ <-]. lia.
  - intros s vs r. cbn [parse_elements].
    destruct (parse_value n s) as [[v r0] |] eqn:E; [| discriminate].
    apply IHv in E. cbn.
    destruct (skip_ws r0) as [| c r'] eqn:Er; [discriminate |].
    apply skip_ws_cons_length in Er.
    destruct (N.eqb c 44).
    { destruct (parse_elements n r') as [[vs0 rest] |] eqn:E';
        [| discriminate].
      apply IHe in E'. cbn. intros [= _ <-]. lia. }
    destruct (N.eqb c 93); [| discriminate].
    intros [= _ <-]. lia.
  - intros s ms r. cbn [parse_members].
    destruct (skip_ws s) as [| q r0] eqn:Es; [discriminate |].
    apply skip_ws_cons_length in Es.
    destruct (N.eqb q 34); [| discriminate].
    destruct (parse_string_body r0) as [[k r1] |] eqn:Ek; [| discriminate].
    apply parse_string_body_length in Ek. cbn.
    destruct (skip_ws r1) as [| colon r2] eqn:Ec; [discriminate |].
    apply skip_ws_cons_length in Ec.
    destruct (N.eqb colon 58); [| discriminate].
    destruct (parse_value n r2) as [[v r3] |] eqn:Ev; [| discriminate].
    apply IHv in Ev. cbn.
    destruct (skip_ws r3) as [| c r'] eqn:Er; [discriminate |].
    apply skip_ws_cons_length in Er.
    destruct (N.eqb c 44).
    { destruct (parse_members n r') as [[ms0 rest] |] eqn:E';
        [| discriminate].
      apply IHm in E'. cbn. intros [= _ <-]. lia. }
    destruct (N.eqb c 125); [| discriminate].
    intros [= _ <-]. lia.
Qed.

Lemma parse_fuel_stable (n : nat) :
  (forall m s, (2 * length s + 1 <= n)%nat -> (n <= m)%nat ->
     parse_value n s = parse_value m s)
  /\ (forall m s, (2 * length s + 2 <= n)%nat -> (n <= m)%nat ->
        parse_elements n s = parse_elements m s)
  /\ (forall m s, (2 * length s + 2 <= n)%nat -> (n <= m)%nat ->
        parse_members n s = parse_members m s).
Proof.
  induction n as [| n (IHv & IHe & IHm)];
    [repeat split; intros; lia |].
  split; [| split]; intros [| m] s Hb Hm; try lia.
  - cbn [parse_value].
    destruct (skip_ws s) as [| c r0] eqn:Es; [reflexivity |].
    apply skip_ws_cons_length in Es.
    rewrite (IHe m r0), (IHm m r0) by lia. reflexivity.
  - cbn [parse_elements].
    rewrite (IHv m s) by lia.
    destruct (parse_value m s) as [[v r0] |] eqn:E; [| reflexivity].
    apply parse_value_shrinks in E. cbn.
    destruct (skip_ws r0) as [| c r'] eqn:Er; [reflexivity |].
    apply skip_ws_cons_length in Er.
    rewrite (IHe m r') by lia. reflexivity.
  - cbn [parse_members].
    destruct (skip_ws s) as [| q r0] eqn:Es; [reflexivity |].
    apply skip_ws_cons_length in Es.
    destruct (N.eqb q 34); [| reflexivity].
    destruct (parse_string_body r0) as [[k r1] |] eqn:Ek; [| reflexivity].
    apply parse_string_body_length in Ek. cbn.
    destruct (skip_ws r1) as [| colon r2] eqn:Ec; [reflexivity |].
    apply skip_ws_cons_length in Ec.
    destruct (N.eqb colon 58); [| reflexivity].
    rewrite (IHv m r2) by lia.
    destruct (parse_value m r2) as [[v r3] |] eqn:Ev; [| reflexivity].
    apply parse_value_shrinks in Ev. cbn.
    destruct (skip_ws r3) as [| c r'] eqn:Er; [reflexivity |].
    apply skip_ws_cons_length in Er.
    rewrite (IHm m r') by lia. reflexivity.
Qed.

(** [JSON_parse] gives the result of the descent with any larger fuel. *)
Lemma JSON_parse_fuel_enough (text : jsstring) (m : nat) :
  (2 * length text + 2 <= m)%nat ->
  JSON_parse text =
    match parse_value m text with
    | Some (v, rest) =>
        match skip_ws rest with
        | [] => Some v
        | _ :: _ => None
        end
    | None => None
    end.
Proof.
  intros Hm. unfold JSON_parse.
  destruct (parse_fuel_stable (2 * length text + 2)) as (Hv & _).
  rewrite (Hv m text) by lia. reflexivity.
Qed.

End ParserFuel.

(** ** utils.ts: truncation *)

Section Truncation.
Import Utils.







End Truncation.

(** ** tool-wrapper.ts: parameter types *)

Section ParameterTypes.
Import ToolWrapper.

Lemma schemaToPythonType_array (items : option TSchema)
    (a : option (list TSchema)) (d : option jsstring) :
  schemaToPythonType (Schema (Some (lit "array")) items a d) =
    lit "List["
      ++ match items with
         | Some i => schemaToPythonType i
         | None => lit "Any"
         end
      ++ lit "]".
Proof. destruct items; reflexivity. Qed.

Lemma schemaToPythonType_unknown (kind : option jsstring)
    (items : option TSchema) (a : option (list TSchema))
    (d : option jsstring) :
  kind ∉ known_kinds ->
  schemaToPythonType (Schema kind items a d) = lit "Any".
Proof.
  unfold known_kinds. rewrite !not_elem_of_cons. intros H.
  cbn [schemaToPythonType].
  repeat (case_bool_decide; [subst; exfalso; tauto |]).
  reflexivity.
Qed.

(** C8, the claim as worded, fails: the item type does not stop after one
    level.  An array of arrays of strings is rendered with the innermost
    type, which a mapping that looks one level into the items cannot
    see. *)
Lemma schemaToPythonType_beyond_one_level :
  schemaToPythonType (Fixtures.TArray (Fixtures.TArray Fixtures.TString))
    = lit "List[List[str]]" /\
  schemaToPythonType
    (one_level (Fixtures.TArray (Fixtures.TArray Fixtures.TString)))
    = lit "List[List[Any]]" /\
  ~ (forall s, schemaToPythonType s = schemaToPythonType (one_level s)).
Proof.
  split; [vm_compute; reflexivity |].
  split; [vm_compute; reflexivity |].
  intros H.
  specialize (H (Fixtures.TArray (Fixtures.TArray Fixtures.TString))).
  vm_compute in H. discriminate H.
Qed.

(** C8, amended.  [schemaToPythonType] maps string to str, number to
    float, integer to int, boolean to bool, null to None, object to
    Dict[str, Any], any other or missing kind to Any, and array to List[T]
    where T is the mapping applied to the item schema itself (Any without
    items), so that the recursion follows arrays to any depth. *)
Theorem schemaToPythonType_kinds (items : option TSchema)
    (a : option (list TSchema)) (d : option jsstring) :
  schemaToPythonType (Schema (Some (lit "string")) items a d) = lit "str" /\
  schemaToPythonType (Schema (Some (lit "number")) items a d) = lit "float" /\
  schemaToPythonType (Schema (Some (lit "integer")) items a d) = lit "int" /\
  schemaToPythonType (Schema (Some (lit "boolean")) items a d) = lit "bool" /\
  schemaToPythonType (Schema (Some (lit "null")) items a d) = lit "None" /\
  schemaToPythonType (Schema (Some (lit "object")) items a d)
    = lit "Dict[str, Any]" /\
  (forall kind, kind ∉ known_kinds ->
     schemaToPythonType (Schema kind items a d) = lit "Any") /\
  schemaToPythonType (Schema (Some (lit "array")) None a d) = lit "List[Any]" /\
  (forall i,
     schemaToPythonType (Schema (Some (lit "array")) (Some i) a d)
       = lit "List[" ++ schemaToPythonType i ++ lit "]").
Proof.
  repeat split; try reflexivity.
  - intros kind Hk. apply schemaToPythonType_unknown, Hk.
Qed.

(** The unknown-kind case of C8 at the kind ["tuple"] and at a schema
    without [type]. *)
Lemma schemaToPythonType_kinds_witness :
  schemaToPythonType (Schema (Some (lit "tuple")) None None None) = lit "Any" /\
  schemaToPythonType (Schema None None None None) = lit "Any".
Proof.
  split.
  - apply (schemaToPythonType_kinds None None None).
    apply (bool_decide_unpack _). vm_compute. exact I.
  - apply (schemaToPythonType_kinds None None None).
    apply (bool_decide_unpack _). vm_compute. exact I.
Defined.

End ParameterTypes.

(** ** tool-wrapper.ts: optional parameters *)

Section Optionality.
Import ToolWrapper.
















End Optionality.

(** ** rpc-protocol.ts: lines of guest output *)

Section GuestOutput.
Import RpcProtocol.
Variable cfg : Config.

Lemma run_cons (st : State) (ev : Event) (evs : list Event) :
  run cfg st (ev :: evs) = run cfg (step cfg st ev) evs.
Proof. reflexivity. Qed.

Lemma handleMessage_unparsable (line : jsstring) (st : State) :
  JSON_parse line = None -> handleMessage cfg line st = capture line st.
Proof. intros H. unfold handleMessage. rewrite H. reflexivity. Qed.

Lemma capture_keeps_completion (line : jsstring) (st : State) :
  completion (capture line st) = completion st
  /\ written (capture line st) = written st
  /\ proc (capture line st) = proc st.
Proof. unfold capture. destruct (nonempty (stdout st)); auto. Qed.

Lemma capture_stdout (line : jsstring) (st : State) :
  line <> [] ->
  stdout (capture line st) =
    join nl ((if nonempty (stdout st) then [stdout st] else []) ++ [line])
  /\ nonempty (stdout (capture line st)) = true.
Proof.
  intros Hl. unfold capture. destruct (stdout st) as [| c s] eqn:E; cbn.
  - destruct line; [congruence | auto].
  - auto.
Qed.

(** Where the buffering does hold: lines that are not JSON at all and are
    not empty are kept whole, in arrival order, newline separated, and a
    later [complete] resolves with them in front of its output. *)
Lemma unparsable_lines_buffered (lines : list jsstring) (st : State) :
  Forall (fun l => JSON_parse l = None /\ l <> []) lines ->
  let st' := run cfg st (map Line lines) in
  stdout st' =
    join nl ((if nonempty (stdout st) then [stdout st] else []) ++ lines)
  /\ completion st' = completion st.
Proof.
  revert st. induction lines as [| l lines IH]; intros st Hall; cbn zeta.
  - cbn. destruct (stdout st); cbn; auto.
  - apply Forall_cons in Hall as [[Hl Hne] Hall].
    cbn [map]. rewrite run_cons. cbn [step].
    rewrite handleMessage_unparsable by assumption.
    destruct (IH (capture l st) Hall) as [Hs Hc]. cbn zeta in Hs, Hc.
    rewrite Hs, Hc.
    destruct (capture_stdout l st Hne) as [Hcap Hnonempty].
    rewrite Hnonempty, Hcap.
    split; [| apply capture_keeps_completion].
    destruct (nonempty (stdout st)) eqn:E; cbn [app].
    + destruct lines as [| l' lines']; [reflexivity |].
      cbn [join app]. rewrite <- !app_assoc. reflexivity.
    + destruct lines as [| l' lines']; reflexivity.
Qed.

(** Where it does not: a line that is JSON, but not [null] and without one
    of the five handled types, leaves the state as it was; the line is
    gone. *)
Lemma unrecognised_json_line_dropped (line : jsstring) (msg : json)
    (st : State) :
  JSON_parse line = Some msg ->
  msg <> JNull ->
  (forall t, get_prop (lit "type") msg = Some (JStr t) ->
     t ∉ [lit "tool_call"; lit "execution_progress"; lit "complete";
          lit "error"; lit "update"]) ->
  step cfg st (Line line) = st.
Proof.
  intros Hp Hnull Htype. cbn [step]. unfold handleMessage. rewrite Hp.
  destruct msg; try congruence;
    (destruct (get_prop (lit "type") _) as [[| | | t | |] |] eqn:Et;
     try reflexivity;
     specialize (Htype t eq_refl);
     rewrite !not_elem_of_cons in Htype;
     repeat (case_decide; [exfalso; tauto |]); reflexivity).
Qed.

Lemma complete_prepends_stdout (line : jsstring) (fields : list (jsstring * json))
    (output : jsstring) (st : State) :
  JSON_parse line = Some (JObj fields) ->
  lookup_field (lit "type") fields = Some (JStr (lit "complete")) ->
  lookup_field (lit "output") fields = Some (JStr output) ->
  completion st = Pending ->
  completion (step cfg st (Line line)) =
    Resolved (Some (JStr (if nonempty (stdout st)
                          then stdout st ++ nl ++ output else output))).
Proof.
  intros Hp Ht Ho Hc. cbn [step]. unfold handleMessage.
  rewrite Hp. cbn [get_prop]. rewrite Ht.
  repeat (case_decide; [discriminate |]).
  case_decide; [| congruence].
  cbn [completion set_completion get_prop]. rewrite Ho, Hc.
  destruct (nonempty (stdout st)); reflexivity.
Qed.

End GuestOutput.

(** C2, at the failing input.  A printed line that happens to be JSON,
    such as the output of [print(42)], parses, has no [type], matches no
    case of the switch and is dropped: the buffer stays empty and the
    execution returns the declared output alone.  A first printed line
    that is empty is lost as well.  Lines that are not JSON come through as
    the claim says. *)
Theorem printed_json_line_is_dropped :
  JSON_parse (lit "42") = Some (JNum (lit "42")) /\
  RpcProtocol.stdout
    (RpcProtocol.run Fixtures.cfg (CodeExecutor.start Fixtures.cfg 0)
       [RpcProtocol.Line (lit "42")]) = [] /\
  CodeExecutor.execute Fixtures.cfg 0
    [RpcProtocol.Line (lit "42"); RpcProtocol.Line Fixtures.complete_done]
    = CodeExecutor.Returns (lit "done") /\
  CodeExecutor.execute Fixtures.cfg 0
    [RpcProtocol.Line []; RpcProtocol.Line (lit "a");
     RpcProtocol.Line Fixtures.complete_done]
    = CodeExecutor.Returns (lit "a" ++ nl ++ lit "done") /\
  CodeExecutor.execute Fixtures.cfg 0
    [RpcProtocol.Line (lit "hello"); RpcProtocol.Line (lit "x y");
     RpcProtocol.Line Fixtures.complete_done]
    = CodeExecutor.Returns
        (lit "hello" ++ nl ++ lit "x y" ++ nl ++ lit "done").
Proof. repeat split; vm_compute; reflexivity. Qed.

(** ** rpc-protocol.ts: tool calls *)

Section ToolCalls.
Import RpcProtocol.
Variable cfg : Config.








End ToolCalls.


(** ** Timeout and cancellation *)

Ltac order_cases :=
  repeat match goal with
         | |- context [Z.leb ?a ?b] => destruct (Z.leb_spec a b); try lia
         | |- context [Z.ltb ?a ?b] => destruct (Z.ltb_spec a b); try lia
         end.

(** Run the callbacks of one event symbolically and decide the
    comparisons of due times. *)
Ltac tick :=
  cbn -[Z.max Z.leb Z.ltb Z.add Z.mul SandboxManager.timed_out_message];
  unfold SandboxManager.EXECUTION_TIMEOUT in *;
  order_cases.

Section ChannelTimers.
Import RpcProtocol.
Variable cfg : Config.

Lemma elapse_no_timers (dt : Z) (st : State) :
  timers st = [] ->
  elapse dt st = set_clock (Z.max (now st) (now st + dt)) [] st.
Proof. intros H. unfold elapse. rewrite H. reflexivity. Qed.

Lemma run_elapse_idle (dts : list Z) (st : State) :
  timers st = [] ->
  let st' := run cfg st (map Elapse dts) in
  completion st' = completion st /\ proc st' = proc st /\ timers st' = []
  /\ written st' = written st /\ stdout st' = stdout st.
Proof.
  revert st. induction dts as [| dt dts IH]; intros st Ht; cbn zeta.
  - cbn. auto.
  - cbn [map]. change (run cfg st (Elapse dt :: map Elapse dts))
      with (run cfg (elapse dt st) (map Elapse dts)).
    rewrite elapse_no_timers by assumption.
    apply (IH (set_clock _ [] st)). reflexivity.
Qed.

End ChannelTimers.

(** C1, at the failing input.  [CodeExecutor.execute] spawns [python3]
    itself and never calls the sandbox's [execute], the one place where the
    270 second timer is armed; the channel it builds registers no timer
    either.  For a guest that stays silent (a script that loops forever)
    and no cancellation, however much time passes, the promise of the
    execution is still pending and no signal was sent to the process. *)
Theorem execute_never_times_out (cfg : RpcProtocol.Config) (t0 : Z)
    (dts : list Z) :
  let st :=
    RpcProtocol.run cfg (CodeExecutor.start cfg t0)
      (map RpcProtocol.Elapse dts) in
  RpcProtocol.timers (CodeExecutor.start cfg t0) = [] /\
  RpcProtocol.completion st = Pending /\
  delivered (RpcProtocol.proc st) = [] /\
  status (RpcProtocol.proc st) = Running /\
  CodeExecutor.execute cfg t0 (map RpcProtocol.Elapse dts)
    = CodeExecutor.Awaiting.
Proof.
  cbn zeta.
  destruct (run_elapse_idle cfg dts (CodeExecutor.start cfg t0) eq_refl)
    as (Hc & Hp & _).
  cbn zeta in Hc, Hp.
  unfold CodeExecutor.execute, CodeExecutor.finish,
    RpcProtocol.waitForCompletion.
  rewrite Hc, Hp. repeat split; reflexivity.
Qed.

Section SandboxTimers.
Import SandboxManager.

Lemma weight_cons (d : Z) (c : Callback) (ts : list (Z * Callback)) :
  weight ((d, c) :: ts) = (cost c + weight ts)%nat.
Proof. reflexivity. Qed.

Lemma weight_schedule (due : Z) (cb : Callback) (ts : list (Z * Callback)) :
  weight (schedule due cb ts) = (weight ts + cost cb)%nat.
Proof.
  induction ts as [| [d c] ts IH]; cbn [schedule].
  - rewrite weight_cons. unfold weight. cbn. lia.
  - destruct (due <? d); rewrite !weight_cons; [| rewrite IH]; lia.
Qed.

Lemma weight_bound (ts : list (Z * Callback)) :
  (weight ts <= 2 * length ts)%nat.
Proof.
  induction ts as [| [d c] ts IH]; [cbn; lia |].
  rewrite weight_cons. cbn [length]. destruct c; cbn [cost]; lia.
Qed.

Lemma subprocess_fire_weight : uses_its_weight SubprocessSandbox.fire.
Proof.
  intros [|] st; cbn [SubprocessSandbox.fire cost].
  - unfold SubprocessSandbox.onTimeout. destruct (killed st); [lia |].
    cbn [timers set_result setTimeout set_clock]. rewrite weight_schedule.
    cbn [timers set_proc set_killed cost]. lia.
  - unfold SubprocessSandbox.forceKillCheck.
    destruct (exitCode (proc st)); cbn [timers set_proc]; lia.
Qed.

Lemma docker_fire_weight : uses_its_weight DockerSandbox.fire.
Proof.
  intros [|] st; cbn [DockerSandbox.fire cost]; [| lia].
  unfold DockerSandbox.onTimeout.
  destruct (killed st); cbn [timers set_result set_proc set_killed]; lia.
Qed.

(** The fuel of [fire_due] is never used up: any amount above the weight
    of the pending timers gives the same state. *)
Lemma fire_due_fuel (fire : Callback -> ExecState -> ExecState) :
  uses_its_weight fire ->
  forall n t st,
    (weight (timers st) < n)%nat ->
    fire_due fire n t st = fire_due fire (S n) t st.
Proof.
  intros Hfire n. induction n as [| n IH]; intros t st Hn; [lia |].
  cbn [fire_due].
  destruct (timers st) as [| [due cb] rest] eqn:E; [reflexivity |].
  destruct (due <=? t); [| reflexivity].
  apply IH.
  pose proof (Hfire cb (set_clock (Z.max (now st) due) rest st)) as H.
  cbn [timers set_clock] in H.
  rewrite weight_cons in Hn. lia.
Qed.

Lemma elapse_fuel_enough (fire : Callback -> ExecState -> ExecState)
    (dt : Z) (st : ExecState) (n : nat) :
  uses_its_weight fire ->
  (S (2 * length (timers st)) <= n)%nat ->
  fire_due fire n (now st + dt) st = elapse_with fire dt st.
Proof.
  intros Hfire Hn. unfold elapse_with.
  induction Hn as [| n Hle IH]; [reflexivity |].
  rewrite <- IH. symmetry. apply fire_due_fuel; [exact Hfire |].
  pose proof (weight_bound (timers st)). lia.
Qed.

Lemma timed_out_message_text :
  timed_out_message = lit "Execution timed out after 270 seconds".
Proof. vm_compute. reflexivity. Qed.

(** The sibling path: [SubprocessSandbox.execute] does arm the timer.
    After 270 seconds of silence its promise is rejected with the timeout
    message and SIGTERM was sent; 5 seconds later, the process still
    running, SIGKILL follows. *)
Lemma subprocess_execute_times_out (t0 : Z) :
  let st1 :=
    SubprocessSandbox.run (SubprocessSandbox.start NoSignal t0)
      [Elapse 270000] in
  let st2 := SubprocessSandbox.step st1 (Elapse 5000) in
  result st1 = Rejected timed_out_message /\
  delivered (proc st1) = [SIGTERM] /\
  delivered (proc st2) = [SIGTERM; SIGKILL].
Proof.
  repeat tick. auto.
Qed.

End SandboxTimers.

Section ChannelCancellation.
Import RpcProtocol.
Variable cfg : Config.

(** The channel's own abort listener does what the design document says:
    SIGTERM at once and the promise rejected; SIGKILL after 5 seconds
    unless the process has exited by then; a second abort changes
    nothing. *)
Lemma channel_abort_sequence (st : State) :
  abort_listener st = true ->
  status (proc st) = Running ->
  timers st = [] ->
  let st1 := step cfg st Abort in
  delivered (proc st1) = delivered (proc st) ++ [SIGTERM] /\
  completion st1 = reject (lit "Execution aborted") (completion st) /\
  (completion st = Pending ->
     completion st1 = Rejected (lit "Execution aborted")) /\
  step cfg st1 Abort = st1 /\
  (forall dt, 0 <= dt < 5000 ->
     delivered (proc (step cfg st1 (Elapse dt)))
       = delivered (proc st) ++ [SIGTERM]) /\
  delivered (proc (step cfg st1 (Elapse 5000)))
    = delivered (proc st) ++ [SIGTERM; SIGKILL] /\
  (forall code,
     delivered (proc (run cfg st1 [Exit code; Elapse 5000]))
       = delivered (proc st) ++ [SIGTERM]).
Proof.
  intros Hl Hr Ht. cbn zeta.
  assert (E : step cfg st Abort =
    set_completion (reject (lit "Execution aborted") (completion st))
      (set_clock (now st) [(now st + 5000, tt)]
         (set_proc (kill SIGTERM (proc st))
            (set_abort_listener false st)))).
  { cbn [step]. unfold onAbort. rewrite Hl.
    cbn [timers set_proc set_abort_listener now completion set_clock].
    rewrite Ht. reflexivity. }
  rewrite E. clear E.
  unfold kill. rewrite Hr.
  split; [reflexivity |]. split; [reflexivity |].
  split; [intros ->; reflexivity |].
  split; [reflexivity |].
  split; [| split].
  - intros dt Hdt. cbn -[Z.max Z.leb Z.add]. order_cases. reflexivity.
  - cbn -[Z.max Z.leb Z.add]. order_cases.
    cbn. rewrite <- app_assoc. reflexivity.
  - intros [c |]; cbn -[Z.max Z.leb Z.add Z.eqb lit].
    + destruct (c =? 0); cbn -[Z.max Z.leb Z.add lit];
        order_cases; reflexivity.
    + order_cases. reflexivity.
Qed.

End ChannelCancellation.

Section SandboxCancellation.
Import SandboxManager.

(** [SubprocessSandbox.execute] escalates in the same way. *)
Lemma subprocess_abort_sequence (t0 : Z) :
  let st1 :=
    SubprocessSandbox.step (SubprocessSandbox.start (SignalGiven false) t0)
      Abort in
  result st1 = Rejected (lit "Execution aborted") /\
  delivered (proc st1) = [SIGTERM] /\
  SubprocessSandbox.step st1 Abort = st1 /\
  delivered (proc (SubprocessSandbox.step st1 (Elapse 5000)))
    = [SIGTERM; SIGKILL].
Proof. repeat tick. auto. Qed.

Lemma docker_elapse_idle (dts : list Z) (st : ExecState) :
  timers st = [] ->
  let st' := DockerSandbox.run st (map Elapse dts) in
  result st' = result st /\ proc st' = proc st /\ timers st' = [].
Proof.
  revert st. induction dts as [| dt dts IH]; intros st Ht; cbn zeta.
  - cbn. auto.
  - cbn [map].
    change (DockerSandbox.run st (Elapse dt :: map Elapse dts))
      with (DockerSandbox.run (elapse_with DockerSandbox.fire dt st)
              (map Elapse dts)).
    unfold elapse_with. rewrite Ht. cbn [length Nat.mul fire_due].
    rewrite Ht. apply (IH (set_clock _ [] st)). reflexivity.
Qed.

(** C5, at the failing input.  The abort handler of
    [DockerSandbox.execute] sends SIGTERM and rejects the promise, but it
    registers no 5 second timer: for a process that does not exit, no
    SIGKILL is ever sent, however long one waits.  The same holds for its
    timeout callback.  (The abort listener of the channel and the handlers
    of [SubprocessSandbox.execute] do escalate.) *)
Theorem docker_abort_never_force_kills (t0 : Z) (dts : list Z) :
  let st1 := DockerSandbox.step (DockerSandbox.start (SignalGiven false) t0) Abort in
  let st := DockerSandbox.run st1 (map Elapse dts) in
  result st1 = Rejected (lit "Execution aborted") /\
  timers st1 = [] /\
  status (proc st) = Running /\
  delivered (proc st) = [SIGTERM] /\
  DockerSandbox.step st1 Abort = st1 /\
  delivered
    (proc (DockerSandbox.run (DockerSandbox.start NoSignal t0)
             [Elapse 270000; Elapse 5000; Elapse 600000]))
    = [SIGTERM].
Proof.
  cbn zeta.
  set (st1 := DockerSandbox.step (DockerSandbox.start (SignalGiven false) t0) Abort).
  assert (Ht : timers st1 = []) by reflexivity.
  destruct (docker_elapse_idle dts st1 Ht) as (_ & Hp & _).
  cbn zeta in Hp. rewrite Hp.
  repeat split; try reflexivity.
  repeat tick. reflexivity.
Qed.

End SandboxCancellation.

(** ** sandbox-manager.ts: the container life cycle *)

Section ContainerLifeCycle.
Import SandboxManager SandboxManager.DockerSandbox.
Variable World : Type.
Variable execAsync : jsstring -> World -> ExecReply * World.
Variable Date_now : World -> Z.

Local Abbreviation Machine := (Machine World).
Local Abbreviation stopContainer := (stopContainer World execAsync).
Local Abbreviation cleanupExpired := (cleanupExpired World execAsync Date_now).
Local Abbreviation reaper_tick := (reaper_tick World execAsync Date_now).
Local Abbreviation getOrCreateContainer :=
  (getOrCreateContainer World execAsync Date_now).
Local Abbreviation cleanup := (cleanup World execAsync).
Local Abbreviation stopped := (stopped World execAsync).
Local Abbreviation created := (created World Date_now).
Local Abbreviation handle_ok := (@handle_ok World).

Ltac run_method :=
  unfold DockerSandbox.getOrCreateContainer, DockerSandbox.cleanup,
    DockerSandbox.cleanupExpired, DockerSandbox.reaper_tick,
    DockerSandbox.stopContainer, bind, this, ret, date_now, update,
    try_catch, exec, log, throw, has_handle in *;
  cbn [fields world trace containerId lastUsed sessionId cleanupInterval
       set_containerId set_lastUsed set_cleanupInterval] in *.

Lemma stopContainer_with_handle (m : Machine) (id : jsstring) :
  containerId (fields m) = Some id -> nonempty id = true ->
  stopContainer m = (Ok tt, stopped id m).
Proof.
  intros Hid Hne. unfold stopped. run_method. rewrite Hid, Hne.
  destruct (execAsync (docker_stop id) (world m)) as [[out | msg] w'];
    cbn; rewrite ?app_nil_r; reflexivity.
Qed.

Lemma stopContainer_without_handle (m : Machine) :
  has_handle (fields m) = false -> stopContainer m = (Ok tt, m).
Proof.
  run_method. destruct (containerId (fields m)) as [id |]; [| reflexivity].
  intros ->. reflexivity.
Qed.

Lemma commands_app (tr1 tr2 : list Effect) :
  commands (tr1 ++ tr2) = commands tr1 ++ commands tr2.
Proof. unfold commands. apply omap_app. Qed.

Lemma stopped_facts (id : jsstring) (m : Machine) :
  containerId (fields (stopped id m)) = None /\
  has_handle (fields (stopped id m)) = false /\
  lastUsed (fields (stopped id m)) = lastUsed (fields m) /\
  sessionId (fields (stopped id m)) = sessionId (fields m) /\
  cleanupInterval (fields (stopped id m)) = cleanupInterval (fields m) /\
  commands (trace (stopped id m)) = commands (trace m) ++ [docker_stop id].
Proof.
  unfold stopped.
  destruct (execAsync (docker_stop id) (world m)) as [[out | msg] w'];
    cbn [fields trace]; rewrite !commands_app; cbn;
    rewrite ?app_nil_r; auto 10.
Qed.

Lemma has_handle_inv (f : Fields) :
  has_handle f = true ->
  exists id, containerId f = Some id /\ nonempty id = true.
Proof.
  unfold has_handle. destruct (containerId f) as [id |]; [eauto | discriminate].
Qed.

Lemma acquire_reuse (m : Machine) (cwd id : jsstring) :
  containerId (fields m) = Some id -> nonempty id = true ->
  Date_now (world m) - lastUsed (fields m) < EXECUTION_TIMEOUT ->
  getOrCreateContainer cwd m =
    (Ok id, {| fields := set_lastUsed (Date_now (world m)) (fields m);
               world := world m; trace := trace m |}).
Proof.
  intros Hid Hne Ht. run_method. rewrite Hid, Hne. cbn [andb].
  destruct (Z.ltb_spec (Date_now (world m) - lastUsed (fields m))
              EXECUTION_TIMEOUT); [reflexivity | lia].
Qed.

Lemma acquire_without_handle (m : Machine) (cwd : jsstring) :
  has_handle (fields m) = false ->
  let command :=
    docker_run (containerName (fields m) (Date_now (world m))) cwd in
  getOrCreateContainer cwd m =
    match execAsync command (world m) with
    | (ExecOk out, w') => (Ok (trim out), created out command w' m)
    | (ExecFail message, w') =>
        (Throw (ErrorObject
                  (lit "Failed to create Docker container: " ++ message)),
         {| fields := fields m; world := w';
            trace := trace m ++ [Exec command] |})
    end.
Proof.
  intros Hh. cbn zeta. unfold DockerSandbox.created, containerName. run_method.
  rewrite Hh. cbn [andb].
  destruct (execAsync _ (world m)) as [[out | msg] w']; reflexivity.
Qed.

Lemma acquire_stale (m : Machine) (cwd id : jsstring) :
  containerId (fields m) = Some id -> nonempty id = true ->
  EXECUTION_TIMEOUT <= Date_now (world m) - lastUsed (fields m) ->
  getOrCreateContainer cwd m = getOrCreateContainer cwd (stopped id m).
Proof.
  intros Hid Hne Ht.
  rewrite (acquire_without_handle (stopped id m))
    by apply stopped_facts.
  destruct m as [[cid lu sid ci] w tr]. cbn in Hid, Ht. subst cid.
  destruct id as [| c id']; [discriminate |].
  cbn zeta. unfold DockerSandbox.created, containerName, DockerSandbox.stopped.
  run_method. cbn -[Z.ltb Z.sub EXECUTION_TIMEOUT].
  destruct (Z.ltb_spec (Date_now w - lu) EXECUTION_TIMEOUT); [lia |].
  cbn -[Z.ltb Z.sub EXECUTION_TIMEOUT].
  destruct (execAsync (docker_stop (c :: id')) w) as [[out | msg] w1];
    cbn; destruct (execAsync _ w1) as [[out2 | msg2] w2];
    cbn; rewrite ?app_nil_r; reflexivity.
Qed.


Lemma cleanupExpired_due (m : Machine) (id : jsstring) :
  containerId (fields m) = Some id -> nonempty id = true ->
  EXECUTION_TIMEOUT < Date_now (world m) - lastUsed (fields m) ->
  cleanupExpired m = (Ok tt, stopped id m).
Proof.
  intros Hid Hne Ht.
  rewrite <- (stopContainer_with_handle m id) by assumption.
  run_method. rewrite Hid, Hne. cbn [andb].
  destruct (Z.ltb_spec EXECUTION_TIMEOUT
              (Date_now (world m) - lastUsed (fields m))); [| lia].
  rewrite Hid, Hne. reflexivity.
Qed.

Lemma cleanupExpired_not_due (m : Machine) :
  ~ (has_handle (fields m) = true
     /\ EXECUTION_TIMEOUT < Date_now (world m) - lastUsed (fields m)) ->
  cleanupExpired m = (Ok tt, m).
Proof.
  intros H. run_method.
  destruct (match containerId (fields m) with
            | Some id => nonempty id | None => false end) eqn:Hh;
    [| reflexivity].
  destruct (Z.ltb_spec EXECUTION_TIMEOUT
              (Date_now (world m) - lastUsed (fields m)));
    [tauto | reflexivity].
Qed.



Lemma stopContainer_result (m : Machine) :
  fst (stopContainer m) = Ok tt
  /\ has_handle (fields (snd (stopContainer m))) = false
  /\ (containerId (fields m) <> Some [] ->
      containerId (fields (snd (stopContainer m))) = None).
Proof.
  destruct (has_handle (fields m)) eqn:Hh.
  - destruct (has_handle_inv _ Hh) as (id & Hid & Hne).
    rewrite (stopContainer_with_handle m id) by assumption.
    cbn [fst snd]. split; [reflexivity |].
    split; [| intros _]; apply stopped_facts.
  - rewrite stopContainer_without_handle by assumption.
    cbn [fst snd]. split; [reflexivity |]. split; [assumption |].
    unfold has_handle in Hh.
    destruct (containerId (fields m)) as [[| c id] |];
      [congruence | discriminate | reflexivity].
Qed.

Lemma cleanup_stops (m : Machine) :
  cleanup m =
    stopContainer
      {| fields := set_cleanupInterval None (fields m);
         world := world m; trace := trace m |}.
Proof.
  unfold DockerSandbox.cleanup, bind, this, update, ret.
  destruct m as [[cid lu sid [p |]] w tr]; reflexivity.
Qed.

(** C9.  A second [cleanup] in succession returns normally and does
    nothing at all: the first one has cleared the reaper and the handle,
    so no further [docker stop] is issued (over both calls at most one,
    for the handle held at the start).  Neither call throws, whatever
    docker answers.  [SubprocessSandbox.cleanup] does nothing. *)
Theorem cleanup_twice (m : Machine) :
  let m1 := snd (cleanup m) in
  fst (cleanup m) = Ok tt /\
  cleanup m1 = (Ok tt, m1) /\
  has_handle (fields m1) = false /\
  cleanupInterval (fields m1) = None /\
  (containerId (fields m) <> Some [] -> containerId (fields m1) = None) /\
  commands (trace m1) =
    commands (trace m)
      ++ match containerId (fields m) with
         | Some id => if nonempty id then [docker_stop id] else []
         | None => []
         end /\
  SubprocessSandbox_cleanup World m = (Ok tt, m).
Proof.
  cbn zeta.
  rewrite (cleanup_stops m).
  set (m0 := {| fields := set_cleanupInterval None (fields m);
                world := world m; trace := trace m |}).
  assert (Hcid : containerId (fields m0) = containerId (fields m))
    by reflexivity.
  assert (Htr : trace m0 = trace m) by reflexivity.
  assert (Hci : cleanupInterval (fields m0) = None) by reflexivity.
  rewrite <- Hcid, <- Htr. clearbody m0.
  assert (Heta : forall S : Machine,
            cleanupInterval (fields S) = None ->
            {| fields := set_cleanupInterval None (fields S);
               world := world S; trace := trace S |} = S).
  { intros [[c l s i] w tr] Hi. cbn in Hi. subst i. reflexivity. }
  destruct (has_handle (fields m0)) eqn:Hh.
  - destruct (has_handle_inv _ Hh) as (id & Hid & Hne).
    rewrite (stopContainer_with_handle m0 id) by assumption.
    cbn [fst snd].
    destruct (stopped_facts id m0) as (Hc & Hh' & _ & _ & Hci' & Hcmd).
    rewrite cleanup_stops, Hid, Hne.
    split; [reflexivity |]. split.
    { rewrite Heta by congruence.
      apply stopContainer_without_handle, Hh'. }
    repeat split; first [assumption | congruence | reflexivity].
  - rewrite (stopContainer_without_handle m0) by assumption.
    cbn [fst snd]. rewrite cleanup_stops.
    split; [reflexivity |]. split.
    { rewrite Heta by assumption.
      apply stopContainer_without_handle, Hh. }
    split; [assumption |]. split; [assumption |].
    unfold has_handle in Hh.
    destruct (containerId (fields m0)) as [id |].
    + rewrite Hh, app_nil_r. split; [| split; reflexivity].
      destruct id; [congruence | discriminate].
    + rewrite app_nil_r. repeat split; reflexivity.
Qed.

Lemma handle_ok_new (sid : jsstring) (w : World) (tr : list Effect) :
  handle_ok {| fields := new sid; world := w; trace := tr |}.
Proof. unfold handle_ok. discriminate. Qed.

Lemma handle_ok_preserved (m : Machine) (cwd : jsstring) :
  handle_ok m ->
  handle_ok (snd (stopContainer m))
  /\ handle_ok (snd (cleanup m))
  /\ handle_ok (snd (cleanupExpired m))
  /\ handle_ok (snd (reaper_tick m))
  /\ ((forall name w out w',
         execAsync (docker_run name cwd) w = (ExecOk out, w') ->
         trim out <> []) ->
      handle_ok (snd (getOrCreateContainer cwd m))).
Proof.
  intros Hwf. unfold handle_ok in *.
  assert (Hstop : forall m0 : Machine,
            containerId (fields m0) <> Some [] ->
            containerId (fields (snd (stopContainer m0))) <> Some []).
  { intros m0 H0. destruct (stopContainer_result m0) as (_ & _ & Hn).
    rewrite (Hn H0). discriminate. }
  assert (Hexp : containerId (fields (snd (cleanupExpired m))) <> Some []).
  { destruct (has_handle (fields m)) eqn:Hh.
    - destruct (has_handle_inv _ Hh) as (id & Hid & Hne).
      destruct (Z.lt_ge_cases EXECUTION_TIMEOUT
                  (Date_now (world m) - lastUsed (fields m))).
      + rewrite (cleanupExpired_due m id) by assumption.
        cbn [snd]. destruct (stopped_facts id m) as [-> _]. discriminate.
      + rewrite cleanupExpired_not_due by lia. exact Hwf.
    - rewrite cleanupExpired_not_due by (rewrite Hh; intros [[=] _]).
      exact Hwf. }
  split; [apply Hstop, Hwf |].
  split; [rewrite cleanup_stops; apply Hstop, Hwf |].
  split; [exact Hexp |].
  split.
  { unfold DockerSandbox.reaper_tick, bind, this.
    destruct (cleanupInterval (fields m)); [exact Hexp | exact Hwf]. }
  intros Hdocker.
  assert (Hfresh : forall m0 : Machine,
            has_handle (fields m0) = false ->
            containerId (fields m0) <> Some [] ->
            containerId (fields (snd (getOrCreateContainer cwd m0)))
              <> Some []).
  { intros m0 Hh H0. rewrite acquire_without_handle by assumption.
    cbn zeta.
    destruct (execAsync _ (world m0)) as [[out | msg] w'] eqn:E;
      cbn [snd fields DockerSandbox.created containerId set_lastUsed
           set_containerId]; [| exact H0].
    intros [= Hout]. exact (Hdocker _ _ _ _ E Hout). }
  destruct (has_handle (fields m)) eqn:Hh; [| apply Hfresh; assumption].
  destruct (has_handle_inv _ Hh) as (id & Hid & Hne).
  destruct (Z.lt_ge_cases (Date_now (world m) - lastUsed (fields m))
              EXECUTION_TIMEOUT).
  - rewrite (acquire_reuse m cwd id) by assumption. exact Hwf.
  - rewrite (acquire_stale m cwd id) by assumption.
    destruct (stopped_facts id m) as (Hnone & Hh' & _).
    apply Hfresh; [exact Hh' |]. rewrite Hnone. discriminate.
Qed.

(** C10.  From any state whose handle is [null] or a container id (never
    the empty string, which no [docker run -d] prints), [stopContainer]
    returns normally with [containerId] set to [null], also when
    [docker stop] fails; so does [cleanup]; and replacing a stale handle
    leaves no trace of it even if both docker commands fail.  What runs
    afterwards issues no [docker stop]: [stopContainer], [cleanup] and the
    reaper do nothing, and acquiring issues the [docker run] only. *)
Theorem stopContainer_clears_handle (m : Machine) :
  handle_ok m ->
  let m1 := snd (stopContainer m) in
  fst (stopContainer m) = Ok tt /\
  containerId (fields m1) = None /\
  (forall id message w',
     containerId (fields m) = Some id ->
     execAsync (docker_stop id) (world m) = (ExecFail message, w') ->
     stopContainer m = (Ok tt, m1)
     /\ world m1 = w'
     /\ trace m1 =
          trace m ++
            [Exec (docker_stop id);
             ConsoleError (lit "Failed to stop container " ++ id ++ lit ":")
               (ErrorObject message)]) /\
  fst (cleanup m) = Ok tt /\
  containerId (fields (snd (cleanup m))) = None /\
  (forall cwd id,
     containerId (fields m) = Some id ->
     EXECUTION_TIMEOUT <= Date_now (world m) - lastUsed (fields m) ->
     getOrCreateContainer cwd m = getOrCreateContainer cwd m1
     /\ (forall r m2, getOrCreateContainer cwd m = (Throw r, m2) ->
           containerId (fields m2) = None)) /\
  stopContainer m1 = (Ok tt, m1) /\
  cleanupExpired m1 = (Ok tt, m1) /\
  commands (trace (snd (cleanup m1))) = commands (trace m1) /\
  (forall cwd,
     commands (trace (snd (getOrCreateContainer cwd m1)))
       = commands (trace m1)
           ++ [docker_run
                 (containerName (fields m1) (Date_now (world m1))) cwd]).
Proof.
  intros Hwf. cbn zeta.
  destruct (stopContainer_result m) as (Hok & Hh1 & Hnone).
  specialize (Hnone Hwf).
  split; [exact Hok |]. split; [exact Hnone |]. split.
  { intros id message w' Hid Hfail.
    assert (Hne : nonempty id = true)
      by (destruct id; [congruence | reflexivity]).
    rewrite (stopContainer_with_handle m id) by assumption.
    cbn [snd]. unfold DockerSandbox.stopped. rewrite Hfail.
    cbn [world trace]. rewrite <- app_assoc. auto. }
  rewrite (cleanup_stops m).
  destruct (stopContainer_result
              {| fields := set_cleanupInterval None (fields m);
                 world := world m; trace := trace m |})
    as (Hcok & _ & Hcnone).
  split; [exact Hcok |]. split; [exact (Hcnone Hwf) |]. split.
  { intros cwd id Hid Ht.
    assert (Hne : nonempty id = true)
      by (destruct id; [congruence | reflexivity]).
    rewrite (stopContainer_with_handle m id) by assumption. cbn [snd].
    split; [apply acquire_stale; assumption |].
    intros r m2. rewrite (acquire_stale m cwd id) by assumption.
    rewrite acquire_without_handle by apply stopped_facts. cbn zeta.
    destruct (execAsync _ (world (stopped id m))) as [[out | msg] w'];
      [discriminate |].
    intros [= _ <-]. cbn [fields]. apply stopped_facts. }
  split; [apply stopContainer_without_handle, Hh1 |]. split.
  { apply cleanupExpired_not_due. rewrite Hh1. intros [[=] _]. }
  split.
  { rewrite cleanup_stops, stopContainer_without_handle by exact Hh1.
    reflexivity. }
  intros cwd. rewrite acquire_without_handle by exact Hh1. cbn zeta.
  destruct (execAsync _ (world (snd (stopContainer m)))) as [[out | msg] w'];
    cbn [snd DockerSandbox.created trace]; rewrite commands_app; reflexivity.
Qed.

End ContainerLifeCycle.


(** C9 and C10 in a scripted world where [docker stop] fails: the handle
    is cleared all the same, nothing is thrown, and the second [cleanup]
    adds no command. *)
Lemma cleanup_twice_witness :
  let cleanup :=
    SandboxManager.DockerSandbox.cleanup Fixtures.Scripted
      Fixtures.scripted_exec in
  let m1 := snd (cleanup Fixtures.holding_container) in
  SandboxManager.DockerSandbox.containerId
    (SandboxManager.DockerSandbox.fields m1) = None /\
  cleanup m1 = (SandboxManager.DockerSandbox.Ok tt, m1) /\
  SandboxManager.DockerSandbox.commands
    (SandboxManager.DockerSandbox.trace (snd (cleanup m1)))
    = [lit "docker stop abc123"].
Proof.
  cbv zeta.
  pose proof
    (cleanup_twice Fixtures.Scripted Fixtures.scripted_exec
       Fixtures.holding_container) as H.
  cbv zeta in H.
  destruct H as (_ & Hsecond & _ & _ & Hnone & _).
  split; [apply Hnone; discriminate |].
  split; [exact Hsecond |].
  rewrite Hsecond. vm_compute. reflexivity.
Defined.

(** C10 in the same world: the precondition holds, [docker stop] fails,
    and [stopContainer] returns normally with the handle cleared. *)
Lemma stopContainer_clears_handle_witness :
  let stop :=
    SandboxManager.DockerSandbox.stopContainer Fixtures.Scripted
      Fixtures.scripted_exec in
  fst (Fixtures.scripted_exec (lit "docker stop abc123")
         (SandboxManager.DockerSandbox.world Fixtures.holding_container))
    = SandboxManager.DockerSandbox.ExecFail
        (lit "Cannot connect to the Docker daemon") /\
  fst (stop Fixtures.holding_container) = SandboxManager.DockerSandbox.Ok tt /\
  SandboxManager.DockerSandbox.containerId
    (SandboxManager.DockerSandbox.fields
       (snd (stop Fixtures.holding_container))) = None.
Proof.
  cbv zeta.
  destruct
    (stopContainer_clears_handle Fixtures.Scripted Fixtures.scripted_exec
       Fixtures.clock Fixtures.holding_container) as (Hok & Hnone & _).
  - discriminate.
  - split; [reflexivity |]. split; [exact Hok | exact Hnone].
Defined.
